(** * Verification of the auto-suno-app core: queue manager, batch song
      creation engine, creation history store, paginated download engine and
      API client rate limiting.

    The Python sources are embedded shallowly: dataclasses become records,
    dictionaries become [gmap]s, methods that mutate [self] become explicit
    state passing, and raised exceptions become error results that still
    carry the state reached when the exception left the method. *)

From Stdlib Require Import ZArith List String Ascii Lia Bool.
From stdpp Require Import base gmap strings list pretty.

Local Open Scope string_scope.
Local Open Scope list_scope.
Local Open Scope Z_scope.

(** ** Data models ([src/utils/prompt_parser.py], [src/models/data_models.py]) *)

Module SunoPrompt.
Record t := mk { title : string; lyrics : string; style : string }.
End SunoPrompt.

#[global] Instance SunoPrompt_eq_dec : EqDecision SunoPrompt.t.
Proof. solve_decision. Defined.

Module QueueEntry.
Record t := mk {
  id : string;
  account_name : string;
  total_songs : Z;
  songs_per_batch : Z;
  prompts_range : Z * Z;
  status : string;
  created_at : string;
  completed_count : Z
}.
End QueueEntry.

#[global] Instance QueueEntry_eq_dec : EqDecision QueueEntry.t.
Proof. solve_decision. Defined.

(** ** Queue manager ([src/core/queue_manager.py])

    [_save_state] only writes the state document and the [last_updated]
    stamp; neither is read back by any operation below, so the in-memory
    fields [prompts], [prompt_cursor] and [queues] are the whole state.
    [uuid4()] and [datetime.now()] are inputs of [add_queue_entry]. *)

Record QueueManager := mkQM {
  prompts : list SunoPrompt.t;
  prompt_cursor : Z;
  queues : gmap string QueueEntry.t
}.

Inductive QueueValidationError := QVE (msg : string).

(** A method either returns a value or raises; in both cases the manager
    object it worked on is left in some state. *)
Definition QM (A : Type) : Type :=
  QueueManager -> (QueueValidationError + A) * QueueManager.

Definition qret {A} (a : A) : QM A := fun s => (inr a, s).
Definition qbind {A B} (c : QM A) (k : A -> QM B) : QM B :=
  fun s => match c s with
           | (inl e, s') => (inl e, s')
           | (inr a, s') => k a s'
           end.
Definition qraise {A} (msg : string) : QM A := fun s => (inl (QVE msg), s).
Definition qget : QM QueueManager := fun s => (inr s, s).
Definition qput (s' : QueueManager) : QM unit := fun _ => (inr tt, s').
Definition qwhen (b : bool) (c : QM unit) : QM unit := if b then c else qret tt.

Notation "x <- c ;; k" := (qbind c (fun x => k))
  (at level 100, c at next level, right associativity).
Notation "c ;;; k" := (qbind c (fun _ => k))
  (at level 100, right associativity).

Definition fresh_manager : QueueManager :=
  {| prompts := []; prompt_cursor := 0; queues := ∅ |}.

Definition available_prompt_slots (self : QueueManager) : Z :=
  Z.of_nat (length (prompts self)) - prompt_cursor self.

Definition _ensure_prompts (ps : list SunoPrompt.t) : QM unit :=
  self <- qget ;;
  qwhen (bool_decide (ps = []))
    (qraise "At least one prompt is required to queue songs") ;;;
  qwhen (bool_decide (prompts self <> []) && bool_decide (prompts self <> ps)
         && bool_decide (queues self <> ∅))
    (qraise "Cannot switch prompts while queues exist") ;;;
  qwhen (bool_decide (prompts self = []) || bool_decide (prompts self <> ps))
    (qput {| prompts := ps; prompt_cursor := 0; queues := queues self |}).

Definition add_queue_entry (new_id now : string)
    (account_name : string) (total_songs songs_per_batch : Z)
    (ps : list SunoPrompt.t) : QM QueueEntry.t :=
  _ensure_prompts ps ;;;
  qwhen ((total_songs <=? 0) || (songs_per_batch <=? 0))
    (qraise "Song counts must be positive") ;;;
  qwhen (total_songs <? songs_per_batch)
    (qraise "Songs per batch cannot exceed total songs") ;;;
  self <- qget ;;
  qwhen (Z.of_nat (length (prompts self)) <? prompt_cursor self + total_songs)
    (qraise "Not enough prompts remain to fulfill request") ;;;
  let entry := {| QueueEntry.id := new_id;
                  QueueEntry.account_name := account_name;
                  QueueEntry.total_songs := total_songs;
                  QueueEntry.songs_per_batch := songs_per_batch;
                  QueueEntry.prompts_range :=
                    (prompt_cursor self, prompt_cursor self + total_songs);
                  QueueEntry.status := "pending";
                  QueueEntry.created_at := now;
                  QueueEntry.completed_count := 0 |} in
  qput {| prompts := prompts self;
          prompt_cursor := prompt_cursor self + total_songs;
          queues := <[new_id := entry]> (queues self) |} ;;;
  qret entry.

Definition remove_queue_entry (queue_id : string) (self : QueueManager)
    : bool * QueueManager :=
  match queues self !! queue_id with
  | None => (false, self)
  | Some _ =>
      (true, {| prompts := prompts self; prompt_cursor := prompt_cursor self;
                queues := delete queue_id (queues self) |})
  end.

Definition set_progress (completed_count : option Z) (status : option string)
    (entry : QueueEntry.t) : QueueEntry.t :=
  {| QueueEntry.id := QueueEntry.id entry;
     QueueEntry.account_name := QueueEntry.account_name entry;
     QueueEntry.total_songs := QueueEntry.total_songs entry;
     QueueEntry.songs_per_batch := QueueEntry.songs_per_batch entry;
     QueueEntry.prompts_range := QueueEntry.prompts_range entry;
     QueueEntry.status :=
       match status with
       | Some s => if bool_decide (s = "") then QueueEntry.status entry else s
       | None => QueueEntry.status entry
       end;
     QueueEntry.created_at := QueueEntry.created_at entry;
     QueueEntry.completed_count :=
       match completed_count with
       | Some c => Z.min c (QueueEntry.total_songs entry)
       | None => QueueEntry.completed_count entry
       end |}.

Definition update_queue_progress (queue_id : string)
    (completed_count : option Z) (status : option string)
    (self : QueueManager) : bool * QueueManager :=
  match queues self !! queue_id with
  | None => (false, self)
  | Some entry =>
      (true, {| prompts := prompts self; prompt_cursor := prompt_cursor self;
                queues := <[queue_id := set_progress completed_count status entry]>
                            (queues self) |})
  end.

Definition validate_total_prompts (requested_total : Z) (self : QueueManager)
    : bool :=
  requested_total <=? available_prompt_slots self.

Definition clear (self : QueueManager) : QueueManager :=
  {| prompts := []; prompt_cursor := 0; queues := ∅ |}.

(** A call of one public method, with the values the environment supplies. *)
Inductive queue_op :=
| OpAdd (new_id now account_name : string) (total_songs songs_per_batch : Z)
        (ps : list SunoPrompt.t)
| OpRemove (queue_id : string)
| OpUpdate (queue_id : string) (completed_count : option Z)
           (status : option string)
| OpValidate (requested_total : Z)
| OpClear.

Definition apply_op (self : QueueManager) (o : queue_op) : QueueManager :=
  match o with
  | OpAdd new_id now acc total spb ps =>
      snd (add_queue_entry new_id now acc total spb ps self)
  | OpRemove q => snd (remove_queue_entry q self)
  | OpUpdate q c st => snd (update_queue_progress q c st self)
  | OpValidate _ => self
  | OpClear => clear self
  end.

Definition run_ops (self : QueueManager) (ops : list queue_op) : QueueManager :=
  fold_left apply_op ops self.

(** ** Python floats ([int / int], [float * int], [int(float)],
       [math.ceil(float)])

    A finite binary64 value is kept as [fnum * 2 ^ fexp].  True division of
    two integers and multiplication of two floats return the exact result
    rounded to the nearest value with a 53-bit significand, ties to even,
    with gradual underflow below [2 ^ -1022]; a result of magnitude
    [2 ^ 1024] or more is not a finite float ([None]). *)

Module PyFloat.
Record t := mk { fnum : Z; fexp : Z }.

(** [mag n d] is the integer [l] with [2 ^ l <= n / d < 2 ^ (l + 1)]. *)
Definition mag (n d : Z) : Z :=
  let l := Z.log2 n - Z.log2 d in
  if n * 2 ^ Z.max 0 (- l) <? d * 2 ^ Z.max 0 l then l - 1 else l.

Definition round_pos (n d : Z) : t :=
  let e := Z.max (mag n d - 52) (-1074) in
  let num := n * 2 ^ Z.max 0 (- e) in
  let den := d * 2 ^ Z.max 0 e in
  let q := num / den in
  let r := num mod den in
  let m := if 2 * r <? den then q
           else if den <? 2 * r then q + 1
           else if Z.even q then q else q + 1 in
  mk m e.

Definition round_rat (n d : Z) : t :=
  if n =? 0 then mk 0 0
  else let f := round_pos (Z.abs n) (Z.abs d) in
       mk (Z.sgn n * Z.sgn d * fnum f) (fexp f).

Definition is_finite (x : t) : bool :=
  Z.abs (fnum x) * 2 ^ (fexp x + 1074) <? 2 ^ (1024 + 1074).

Definition checked (x : t) : option t := if is_finite x then Some x else None.

(** [float(a)] *)
Definition of_int (a : Z) : option t := checked (round_rat a 1).

(** [x * y] on floats; [None] is an infinite product. *)
Definition mul (x y : t) : option t :=
  let e := fexp x + fexp y in
  checked (round_rat (fnum x * fnum y * 2 ^ Z.max 0 e) (2 ^ Z.max 0 (- e))).

(** [int(x)]: truncation toward zero. *)
Definition to_int (x : t) : Z :=
  if 0 <=? fexp x then fnum x * 2 ^ fexp x
  else Z.quot (fnum x) (2 ^ (- fexp x)).

(** [math.ceil(x)] *)
Definition ceil (x : t) : Z :=
  if 0 <=? fexp x then fnum x * 2 ^ fexp x
  else - ((- fnum x) / 2 ^ (- fexp x)).

(** The value as a fraction: [x = fst (to_frac x) / snd (to_frac x)]. *)
Definition to_frac (x : t) : Z * Z :=
  (fnum x * 2 ^ Z.max 0 (fexp x), 2 ^ Z.max 0 (- fexp x)).
End PyFloat.

(** A Python expression either has a value or raises; the text is
    [str(exc)]. *)
Definition raises (A : Type) : Type := (string + A)%type.

(** [a / b] on integers. *)
Definition py_truediv (a b : Z) : raises PyFloat.t :=
  if b =? 0 then inl "division by zero"
  else match PyFloat.checked (PyFloat.round_rat a b) with
       | Some q => inr q
       | None => inl "integer division result too large for a float"
       end.

(** [int(x * i)] for a float [x] and an integer [i]. *)
Definition py_int_of_product (x : PyFloat.t) (i : Z) : raises Z :=
  match PyFloat.of_int i with
  | None => inl "int too large to convert to float"
  | Some y =>
      match PyFloat.mul x y with
      | Some r => inr (PyFloat.to_int r)
      | None => inl "cannot convert float infinity to integer"
      end
  end.

(** [math.ceil(a / b)] on integers. *)
Definition py_ceil_div (a b : Z) : raises Z :=
  match py_truediv a b with
  | inl e => inl e
  | inr q => inr (PyFloat.ceil q)
  end.

(** ** Python strings

    A [str] is kept as its UTF-8 bytes; the only character the code below
    searches for is the ASCII [/], which no multi-byte sequence contains. *)

Definition slash : ascii := "/"%char.

(** [s.rstrip("/")] *)
Fixpoint rstrip_slash (s : string) : string :=
  match s with
  | EmptyString => EmptyString
  | String c s' =>
      match rstrip_slash s' with
      | EmptyString => if Ascii.eqb c slash then EmptyString
                       else String c EmptyString
      | r => String c r
      end
  end.

(** [s.split("/")]: never empty. *)
Fixpoint split_slash (s : string) : list string :=
  match s with
  | EmptyString => [EmptyString]
  | String c s' =>
      if Ascii.eqb c slash then EmptyString :: split_slash s'
      else match split_slash s' with
           | h :: t => String c h :: t
           | [] => [String c EmptyString]
           end
  end.

(** [needle in hay] *)
Fixpoint str_contains (needle hay : string) : bool :=
  String.prefix needle hay ||
  match hay with
  | EmptyString => false
  | String _ hay' => str_contains needle hay'
  end.

(** ** Song creation history ([src/core/song_creation_history_manager.py]) *)

Module SongCreationRecord.
Record t := mk {
  song_id : string;
  title : string;
  prompt_index : Z;
  account_name : string;
  status : string;
  created_at : string;
  error_message : option string
}.
End SongCreationRecord.

Record SongCreationHistoryManager := mkHist {
  records : list SongCreationRecord.t
}.

Definition add_creation_record (record : SongCreationRecord.t)
    (self : SongCreationHistoryManager) : SongCreationHistoryManager :=
  {| records := record :: records self |}.

Definition get_all_records (self : SongCreationHistoryManager)
    : list SongCreationRecord.t := records self.

Definition get_records_by_account (account_name : string)
    (self : SongCreationHistoryManager) : list SongCreationRecord.t :=
  List.filter
    (fun rec => bool_decide (SongCreationRecord.account_name rec = account_name))
    (records self).

Section Search.
(** [str.lower] follows the Unicode tables; the search is verified for
    any lowering function. *)
Variable lower : string -> string.

Definition record_matches (keyword : string) (rec : SongCreationRecord.t)
    : bool :=
  str_contains (lower keyword) (lower (SongCreationRecord.title rec))
  || str_contains (lower keyword) (lower (SongCreationRecord.song_id rec))
  || str_contains (lower keyword) (lower (SongCreationRecord.status rec)).

Definition search_records (keyword : string)
    (self : SongCreationHistoryManager) : list SongCreationRecord.t :=
  if bool_decide (keyword = "") then get_all_records self
  else List.filter (record_matches keyword) (records self).
End Search.


(** ** Batch song creation engine ([src/core/batch_song_creator.py]) *)

(** What the browser does when the engine submits a filled form. *)
Inductive submit_outcome :=
| UrlReached (current_url : string)   (* the wait for a /song/ URL succeeded *)
| WaitTimedOut                        (* TimeoutException *)
| SubmitRaised (text : string).       (* any other exception, [text = str(exc)] *)

(** One browser tab: the answer of [_fill_song_form], the course of
    [_submit_and_get_id], and the clock when the history record is built. *)
Record TabEnv := mkTab {
  fill_ok : bool;
  submit : submit_outcome;
  now : string
}.

(** One session: its tabs, and possibly an exception (navigation, missing
    window handle) escaping [_run_session] when it reaches a tab. *)
Record SessionEnv := mkSession {
  tabs : nat -> TabEnv;
  crash_at : option (nat * string)
}.

(** One batch call: whether the browser starts, and its sessions. *)
Record BatchEnv := mkBatch {
  driver_failure : option string;
  sessions : nat -> SessionEnv
}.

(** A result dictionary; the synthetic session-error entry has no
    ['pending'] key. *)
Record SongResult := mkResult {
  res_title : string;
  res_success : bool;
  res_pending : option bool;
  res_error : option string
}.

Inductive event :=
| DriverStarted
| DriverQuit
| Progress (message : string) (percent : Z) (song_id : option string)
           (status_label : string) (prompt_title : string).

(** What a batch call can touch: the creator's [driver] attribute, the
    history manager handed in (if any), and the calls it makes. *)
Record World := mkWorld {
  driver : bool;
  history_manager : option SongCreationHistoryManager;
  trace : list event
}.

Definition emit (ev : event) (w : World) : World :=
  {| driver := driver w; history_manager := history_manager w;
     trace := trace w ++ [ev] |}.

Definition _extract_song_id (url : string) : string :=
  List.last (split_slash (rstrip_slash url)) "".

(** The outcome of one prompt inside [_run_session]. *)
Record SongOutcome := mkOutcome {
  success : bool;
  song_id : option string;
  status_label : string;
  error_message : option string
}.

Definition song_outcome (auto_submit : bool) (env : TabEnv) : SongOutcome :=
  if fill_ok env then
    if auto_submit then
      match submit env with
      | UrlReached url =>
          {| success := true; song_id := Some (_extract_song_id url);
             status_label := "success"; error_message := None |}
      | WaitTimedOut =>
          {| success := true; song_id := None; status_label := "pending";
             error_message := Some "Đã gửi yêu cầu – chờ ID" |}
      | SubmitRaised text =>
          {| success := false; song_id := None; status_label := "failed";
             error_message := Some text |}
      end
    else {| success := true; song_id := None; status_label := "pending";
            error_message := None |}
  else {| success := false; song_id := None; status_label := "failed";
          error_message := Some "Fill form failed" |}.

(** [min(100, int(((completed_before_session + prompt_index + 1)
                   / total_songs) * 100))] *)
Definition progress_percent (completed total_songs : Z) : raises Z :=
  match py_truediv completed total_songs with
  | inl e => inl e
  | inr q => match py_int_of_product q 100 with
             | inl e => inl e
             | inr p => inr (Z.min 100 p)
             end
  end.

Definition _record_history_entry (account_name : option string)
    (profile_name : string) (prompt : SunoPrompt.t) (prompt_index : Z)
    (song_id : option string) (status_label : string)
    (error_message : option string) (created_at : string) (w : World) : World :=
  match history_manager w with
  | None => w
  | Some h =>
      let record :=
        {| SongCreationRecord.song_id :=
             match song_id with Some s => s | None => "" end;
           SongCreationRecord.title := SunoPrompt.title prompt;
           SongCreationRecord.prompt_index := prompt_index;
           SongCreationRecord.account_name :=
             match account_name with
             | Some a => if bool_decide (a = "") then profile_name else a
             | None => profile_name
             end;
           SongCreationRecord.status := status_label;
           SongCreationRecord.created_at := created_at;
           SongCreationRecord.error_message := error_message |} in
      {| driver := driver w;
         history_manager := Some (add_creation_record record h);
         trace := trace w |}
  end.

Definition session_message (session_index session_count prompt_index len : Z)
    (title : string) : string :=
  "✍️ Session " +:+ pretty (session_index + 1) +:+ "/" +:+ pretty session_count
  +:+ " - Bài " +:+ pretty (prompt_index + 1) +:+ "/" +:+ pretty len +:+ ": "
  +:+ title.

Section RunSession.
Variables (auto_submit with_callback : bool).
Variables (session_index session_count : Z).
Variables (completed_before_session total_songs : Z).
Variables (account_name : option string) (profile_name : string).
Variable env : SessionEnv.
Variable len : Z.

Definition call_progress (ev : event) (w : World) : World :=
  if with_callback then emit ev w else w.

(** One turn of [for prompt_index, prompt in enumerate(prompts)]. *)
Definition run_tab (prompt : SunoPrompt.t) (i : nat) (w : World)
    : raises SongResult * World :=
  let crashed :=
    match crash_at env with
    | Some (k, text) => if Nat.eqb k i then Some text else None
    | None => None
    end in
  match crashed with
  | Some text => (inl text, w)
  | None =>
      let done := completed_before_session + Z.of_nat i + 1 in
      match progress_percent done total_songs with
      | inl e => (inl e, w)
      | inr percent =>
          let message :=
            session_message session_index session_count (Z.of_nat i) len
              (SunoPrompt.title prompt) in
          let o := song_outcome auto_submit (tabs env i) in
          let result :=
            {| res_title := SunoPrompt.title prompt;
               res_success := success o;
               res_pending := Some (bool_decide (status_label o = "pending"));
               res_error := if success o then None else error_message o |} in
          let w1 := _record_history_entry account_name profile_name prompt done
                      (song_id o) (status_label o) (error_message o)
                      (now (tabs env i)) w in
          let w2 := call_progress
                      (Progress message percent (song_id o) (status_label o)
                         (SunoPrompt.title prompt)) w1 in
          (inr result, w2)
      end
  end.

Fixpoint run_tabs (prompts : list SunoPrompt.t) (i : nat)
    (results : list SongResult) (w : World)
    : raises (list SongResult) * World :=
  match prompts with
  | [] => (inr results, w)
  | prompt :: rest =>
      match run_tab prompt i w with
      | (inl e, w') => (inl e, w')
      | (inr r, w') => run_tabs rest (S i) (results ++ [r]) w'
      end
  end.
End RunSession.

Definition _run_session (prompts : list SunoPrompt.t)
    (auto_submit with_callback : bool) (session_index session_count : Z)
    (completed_before_session total_songs : Z)
    (account_name : option string) (profile_name : string)
    (env : SessionEnv) (w : World) : raises (list SongResult) * World :=
  if negb (driver w) then (inr [], w)
  else run_tabs auto_submit with_callback session_index session_count
         completed_before_session total_songs account_name profile_name env
         (Z.of_nat (length prompts)) prompts 0 [] w.

Definition _initialize_driver (failure : option string) (w : World)
    : raises unit * World :=
  let w1 := if driver w then emit DriverQuit w else w in
  match failure with
  | Some text => (inl text, w1)
  | None => (inr tt, {| driver := true; history_manager := history_manager w1;
                        trace := trace w1 ++ [DriverStarted] |})
  end.

Definition _teardown_driver (w : World) : World :=
  if driver w
  then {| driver := false; history_manager := history_manager w;
          trace := trace w ++ [DriverQuit] |}
  else w.

(** [prompts[start_idx:start_idx + session_size]] *)
Definition session_prompts (prompts : list SunoPrompt.t) (session_size : Z)
    (session_index : nat) : list SunoPrompt.t :=
  firstn (Z.to_nat session_size)
    (skipn (Z.to_nat (Z.of_nat session_index * session_size)) prompts).

Definition session_count_of (total_songs session_size : Z) : Z :=
  (total_songs + session_size - 1) / session_size.

(** The slices handed to [_run_session], in the order of the loop. *)
Definition session_slices (prompts : list SunoPrompt.t) (songs_per_session : Z)
    : list (list SunoPrompt.t) :=
  let session_size := Z.max 1 songs_per_session in
  let total_songs := Z.of_nat (length prompts) in
  List.map (session_prompts prompts session_size)
    (seq 0 (Z.to_nat (session_count_of total_songs session_size))).

Definition session_error (text : string) : SongResult :=
  {| res_title := "SESSION ERROR"; res_success := false; res_pending := None;
     res_error := Some text |}.

Section CreateSongsBatch.
Variable env : BatchEnv.
Variables (prompts : list SunoPrompt.t) (songs_per_session : Z).
Variables (auto_submit with_callback : bool).
Variables (account_name : option string) (profile_name : string).

Let session_size := Z.max 1 songs_per_session.
Let total_songs := Z.of_nat (length prompts).
Let session_count := session_count_of total_songs session_size.

(** [for session_index in range(session_count)], over the indices left. *)
Fixpoint run_sessions (indices : list nat) (results : list SongResult)
    (completed_songs : Z) (w : World) : list SongResult * World :=
  match indices with
  | [] => (results, w)
  | session_index :: rest =>
      let slice := session_prompts prompts session_size session_index in
      let '(r, w') :=
        _run_session slice auto_submit with_callback
          (Z.of_nat session_index) session_count completed_songs total_songs
          account_name profile_name (sessions env session_index) w in
      let results' :=
        match r with
        | inr session_results => results ++ session_results
        | inl text => results ++ [session_error text]
        end in
      run_sessions rest results'
        (completed_songs + Z.of_nat (length slice)) w'
  end.

Definition create_songs_batch (w : World)
    : raises (list SongResult) * World :=
  match prompts with
  | [] => (inr [], w)
  | _ :: _ =>
      match _initialize_driver (driver_failure env) w with
      | (inl text, w1) => (inl text, _teardown_driver w1)
      | (inr _, w1) =>
          let '(results, w2) :=
            run_sessions (seq 0 (Z.to_nat session_count)) [] 0 w1 in
          let w3 := _teardown_driver w2 in
          let w4 :=
            if with_callback
            then emit (Progress "✅ Hoàn thành!" 100 None "complete"
                         "Batch finished") w3
            else w3 in
          (inr results, w4)
      end
  end.
End CreateSongsBatch.

(** ** Queue panel ([src/ui/multiple_songs_panel.py]) *)

Definition _calculate_session_count (total_prompts : Z) : Z :=
  if 30 <? total_prompts then 4
  else if 20 <? total_prompts then 3
  else if 10 <? total_prompts then 2
  else 1.

(** [_run_queue_thread]: the session size the panel hands to the engine,
    [math.ceil(len(queue_prompts) / session_count)]. *)
Definition queue_songs_per_session (queue_prompts : list SunoPrompt.t)
    : raises Z :=
  let session_count :=
    _calculate_session_count (Z.of_nat (length queue_prompts)) in
  py_ceil_div (Z.of_nat (length queue_prompts)) session_count.


(** ** API client rate limiting ([src/core/suno_api_client.py])

    The pacing sleep of [_make_request] depends on the wall clock and is left
    out; [sleeps] records the [time.sleep] calls of [_handle_rate_limit]. *)

Record SunoApiClient := mkClient {
  _rate_limit_wait : Z;
  sleeps : list Z
}.

Definition new_client : SunoApiClient :=
  {| _rate_limit_wait := 10; sleeps := [] |}.

(** What [requests.request] does: a response with a status code and a body,
    or a [RequestException].  [json] is what [response.json()] returns;
    [None] stands for a body that does not decode, for which it raises a
    [JSONDecodeError] (a [RequestException]). *)
Inductive answer :=
| Answer (status_code : Z) (json : option string)
| ConnectionFailed.

Definition _handle_rate_limit (status_code : Z) (self : SunoApiClient)
    : bool * SunoApiClient :=
  if status_code =? 429 then
    (true, {| _rate_limit_wait := Z.min (_rate_limit_wait self + 5) 60;
              sleeps := sleeps self ++ [_rate_limit_wait self] |})
  else if status_code =? 200 then
    (false, {| _rate_limit_wait := 10; sleeps := sleeps self |})
  else (false, self).

(** [response.raise_for_status(); return response.json()], with the
    [except RequestException: return None] around it. *)
Definition response_value (a : answer) : option string :=
  match a with
  | Answer status_code json =>
      if (400 <=? status_code) && (status_code <? 600) then None else json
  | ConnectionFailed => None
  end.

(** The server is the list of its next answers; when it is exhausted the
    connection fails. *)
Definition next_answer (server : list answer) : answer * list answer :=
  match server with
  | a :: rest => (a, rest)
  | [] => (ConnectionFailed, [])
  end.

Definition _make_request (server : list answer) (self : SunoApiClient)
    : option string * SunoApiClient * list answer :=
  let '(first, server1) := next_answer server in
  match first with
  | ConnectionFailed => (None, self, server1)
  | Answer status_code _ =>
      let '(retry, self1) := _handle_rate_limit status_code self in
      if retry then
        let '(second, server2) := next_answer server1 in
        (response_value second, self1, server2)
      else (response_value first, self1, server1)
  end.

(** [n] requests one after the other. *)
Fixpoint make_requests (n : nat) (server : list answer) (self : SunoApiClient)
    : SunoApiClient * list answer :=
  match n with
  | O => (self, server)
  | S n' =>
      let '(_, self1, server1) := _make_request server self in
      make_requests n' server1 self1
  end.

(** Requests are issued until the server's answers are used up. *)
Fixpoint serve_all (fuel : nat) (server : list answer) (self : SunoApiClient)
    : SunoApiClient :=
  match fuel, server with
  | S fuel', _ :: _ =>
      let '(_, self1, server1) := _make_request server self in
      serve_all fuel' server1 self1
  | _, _ => self
  end.

(** ** Download manager ([src/core/download_manager.py]) *)

Module DownloadHistory.
Record t := mk {
  account_name : string;
  downloaded_ids : list string;
  total_downloaded : Z;
  last_download : option string;
  current_page : Z;
  last_profile : string
}.

Definition new (account_name : string) : t :=
  {| account_name := account_name; downloaded_ids := [];
     total_downloaded := 0; last_download := None; current_page := 1;
     last_profile := "" |}.

Definition is_downloaded (clip_id : string) (self : t) : bool :=
  bool_decide (clip_id ∈ downloaded_ids self).

Definition add_download (clip_id now : string) (self : t) : t :=
  if is_downloaded clip_id self then self
  else {| account_name := account_name self;
          downloaded_ids := downloaded_ids self ++ [clip_id];
          total_downloaded :=
            Z.of_nat (length (downloaded_ids self ++ [clip_id]));
          last_download := Some now;
          current_page := current_page self;
          last_profile := last_profile self |}.
End DownloadHistory.

Module SongClip.
Record t := mk {
  id : string;
  title : string;
  audio_url : option string;
  image_url : option string;
  tags : string;
  created_at : option string;
  duration : option string
}.
End SongClip.

(** One call of the page fetch ([fetch_create_clips_paginated] or
    [fetch_profile_clips] with [max_pages=1]), its clips already turned into
    [SongClip]s; or an exception inside the [try] block. *)
Inductive page_response :=
| Page (clips : list SongClip.t) (has_more : bool)
| PageRaised (text : string).

Inductive download_event :=
| Skipped (clip : SongClip.t)
| Downloaded (clip : SongClip.t)
| DownloadFailed (clip : SongClip.t).

Record Stats := mkStats {
  stat_success : Z;
  stat_failed : Z;
  stat_skipped : Z;
  stat_total_pages : Z
}.

(** The part of the manager one paginated run works on: the history object
    of the account (shared with [self.histories]), the statistics, and the
    downloads tried so far. *)
Record Run := mkRun {
  history : DownloadHistory.t;
  stats : Stats;
  events : list download_event
}.

Definition attempts (evs : list download_event) : nat :=
  length (List.filter (fun ev => match ev with Skipped _ => false | _ => true end)
            evs).

Definition reached (limit : option Z) (n : Z) : bool :=
  match limit with
  | Some l => l <=? n
  | None => false
  end.

Section PaginatedDownload.
(** [download_clip] answers by the number of earlier attempts of the run
    and the clip; [clock] is [datetime.now()] at that attempt. *)
Variable download_clip : nat -> SongClip.t -> bool.
Variable clock : nat -> string.
Variables (max_pages max_clips : option Z).

Definition process_clip (clip : SongClip.t) (r : Run) : Run :=
  let st := stats r in
  if DownloadHistory.is_downloaded (SongClip.id clip) (history r) then
    {| history := history r;
       stats := {| stat_success := stat_success st;
                   stat_failed := stat_failed st;
                   stat_skipped := stat_skipped st + 1;
                   stat_total_pages := stat_total_pages st |};
       events := events r ++ [Skipped clip] |}
  else if download_clip (attempts (events r)) clip then
    {| history := DownloadHistory.add_download (SongClip.id clip)
                    (clock (attempts (events r))) (history r);
       stats := {| stat_success := stat_success st + 1;
                   stat_failed := stat_failed st;
                   stat_skipped := stat_skipped st;
                   stat_total_pages := stat_total_pages st |};
       events := events r ++ [Downloaded clip] |}
  else
    {| history := history r;
       stats := {| stat_success := stat_success st;
                   stat_failed := stat_failed st + 1;
                   stat_skipped := stat_skipped st;
                   stat_total_pages := stat_total_pages st |};
       events := events r ++ [DownloadFailed clip] |}.

(** [for idx, clip in enumerate(clips, 1)], with its [max_clips] break. *)
Fixpoint process_page (clips : list SongClip.t) (r : Run) : Run :=
  match clips with
  | [] => r
  | clip :: rest =>
      if reached max_clips (stat_success (stats r) + stat_skipped (stats r))
      then r
      else process_page rest (process_clip clip r)
  end.

Definition count_page (r : Run) : Run :=
  {| history := history r;
     stats := {| stat_success := stat_success (stats r);
                 stat_failed := stat_failed (stats r);
                 stat_skipped := stat_skipped (stats r);
                 stat_total_pages := stat_total_pages (stats r) + 1 |};
     events := events r |}.

Definition count_failure (r : Run) : Run :=
  {| history := history r;
     stats := {| stat_success := stat_success (stats r);
                 stat_failed := stat_failed (stats r) + 1;
                 stat_skipped := stat_skipped (stats r);
                 stat_total_pages := stat_total_pages (stats r) |};
     events := events r |}.

(** [while True], over the answers of the successive page fetches; a
    source that has no further answer returns an empty page. *)
Fixpoint page_loop (source : list page_response) (pages_processed : Z)
    (r : Run) : Run :=
  if reached max_pages pages_processed then r
  else if reached max_clips (stat_success (stats r) + stat_skipped (stats r))
  then r
  else
    match source with
    | [] => r
    | PageRaised _ :: _ => count_failure r
    | Page [] _ :: _ => r
    | Page clips has_more :: rest =>
        let r' := process_page clips (count_page r) in
        if has_more then page_loop rest (pages_processed + 1) r' else r'
    end.
End PaginatedDownload.

Record DownloadManager := mkDM {
  histories : gmap string DownloadHistory.t
}.

Definition get_history (account_name : string) (self : DownloadManager)
    : DownloadHistory.t * DownloadManager :=
  match histories self !! account_name with
  | Some h => (h, self)
  | None =>
      (DownloadHistory.new account_name,
       {| histories := <[account_name := DownloadHistory.new account_name]>
                         (histories self) |})
  end.

Definition batch_download_paginated
    (download_clip : nat -> SongClip.t -> bool) (clock : nat -> string)
    (account_name : string) (source : list page_response)
    (max_pages max_clips : option Z) (self : DownloadManager)
    : Stats * list download_event * DownloadManager :=
  let '(h, self1) := get_history account_name self in
  let r := page_loop download_clip clock max_pages max_clips source 0
             {| history := h; stats := mkStats 0 0 0 0; events := [] |} in
  (stats r, events r,
   {| histories := <[account_name := history r]> (histories self1) |}).


(** Vocabulary for the queue-manager properties. *)

Definition range_within (self : QueueManager) (e : QueueEntry.t) : Prop :=
  0 <= fst (QueueEntry.prompts_range e) /\
  snd (QueueEntry.prompts_range e) <= Z.of_nat (length (prompts self)).

Definition ranges_disjoint (e1 e2 : QueueEntry.t) : Prop :=
  snd (QueueEntry.prompts_range e1) <= fst (QueueEntry.prompts_range e2) \/
  snd (QueueEntry.prompts_range e2) <= fst (QueueEntry.prompts_range e1).

(** Every live range is a non-empty slice below the cursor, the cursor is
    inside the pool, and two live ranges never share an index. *)
Definition allocation_ok (self : QueueManager) : Prop :=
  (0 <= prompt_cursor self <= Z.of_nat (length (prompts self))) /\
  (forall i e, queues self !! i = Some e ->
     0 <= fst (QueueEntry.prompts_range e) /\
     fst (QueueEntry.prompts_range e) < snd (QueueEntry.prompts_range e) /\
     snd (QueueEntry.prompts_range e) <= prompt_cursor self) /\
  (forall i j e1 e2, i <> j ->
     queues self !! i = Some e1 -> queues self !! j = Some e2 ->
     ranges_disjoint e1 e2).

(** The call installs the supplied list as the pool: the list is not empty
    and differs from the manager's pool, and the manager holds no pool or no
    queue entry. *)
Definition replaces_pool (self : QueueManager) (ps : list SunoPrompt.t) : bool :=
  bool_decide (ps <> []) && bool_decide (prompts self <> ps)
  && (bool_decide (prompts self = []) || bool_decide (queues self = ∅)).

Definition is_clear (o : queue_op) : bool :=
  match o with OpClear => true | _ => false end.

(** The operation is an [add_queue_entry] call that puts another list in the
    place of an installed pool. *)
Definition switches_pool (self : QueueManager) (o : queue_op) : bool :=
  match o with
  | OpAdd _ _ _ _ _ ps =>
      bool_decide (prompts self <> []) && replaces_pool self ps
  | _ => false
  end.

(** No operation of the run is [clear()] or switches the pool. *)
Fixpoint keeps_pool (self : QueueManager) (ops : list queue_op) : bool :=
  match ops with
  | [] => true
  | o :: rest =>
      negb (is_clear o) && negb (switches_pool self o)
      && keeps_pool (apply_op self o) rest
  end.

(** The capacity claim, as the specification words it, at one call. *)
Definition capacity_claim_at (self : QueueManager) (new_id now acc : string)
    (total spb : Z) (ps : list SunoPrompt.t) : Prop :=
  available_prompt_slots self < total ->
  let r := add_queue_entry new_id now acc total spb ps self in
  (exists msg, fst r = inl (QVE msg)) /\
  prompt_cursor (snd r) = prompt_cursor self /\
  queues (snd r) = queues self.

(** The cursor-monotonicity claim, as the specification words it, between
    two points of one run without [clear()]. *)
Definition cursor_monotone_claim_at (ops1 ops2 : list queue_op) : Prop :=
  forallb (fun o => negb (is_clear o)) (ops1 ++ ops2) = true ->
  prompt_cursor (run_ops fresh_manager ops1)
    <= prompt_cursor (run_ops fresh_manager (ops1 ++ ops2)).

Definition five_prompts : list SunoPrompt.t :=
  map (fun s => SunoPrompt.mk s "Sample lyrics content" "Pop")
      ["Song 1"; "Song 2"; "Song 3"; "Song 4"; "Song 5"].

Definition two_prompts : list SunoPrompt.t :=
  map (fun s => SunoPrompt.mk s "Other lyrics" "Rock") ["Tune 1"; "Tune 2"].

Definition ten_prompts : list SunoPrompt.t :=
  map (fun s => SunoPrompt.mk s "More lyrics" "Jazz")
      ["Air 1"; "Air 2"; "Air 3"; "Air 4"; "Air 5";
       "Air 6"; "Air 7"; "Air 8"; "Air 9"; "Air 10"].

(** A manager that allocated three prompts to an entry and then dropped the
    entry: the cursor stays at 3 with no live entry. *)
Definition after_add_remove : QueueManager :=
  run_ops fresh_manager
    [OpAdd "q1" "2025-11-09 10:00:00" "acc1" 3 3 five_prompts; OpRemove "q1"].

(** Vocabulary for the engine properties. *)

Fixpoint has_slash (s : string) : bool :=
  match s with
  | EmptyString => false
  | String c s' => Ascii.eqb c slash || has_slash s'
  end.

Fixpoint slashes (k : nat) : string :=
  match k with
  | O => EmptyString
  | S k' => String slash (slashes k')
  end.

(** The per-song state machine, with the messages as the specification
    words them. *)
Definition state_machine_claim_at (auto_submit : bool) (env : TabEnv) : Prop :=
  let o := song_outcome auto_submit env in
  (fill_ok env = false ->
     status_label o = "failed" /\ error_message o = Some "Fill form failed") /\
  (fill_ok env = true -> auto_submit = false ->
     status_label o = "pending" /\ error_message o = None) /\
  (fill_ok env = true -> auto_submit = true ->
     forall p seg k, seg <> "" -> has_slash seg = false ->
       submit env = UrlReached (p +:+ "/" +:+ seg +:+ slashes k) ->
       status_label o = "success" /\ song_id o = Some seg) /\
  (fill_ok env = true -> auto_submit = true -> submit env = WaitTimedOut ->
     status_label o = "pending" /\
     error_message o = Some "request sent – waiting for ID") /\
  (fill_ok env = true -> auto_submit = true ->
     forall text, submit env = SubmitRaised text ->
       status_label o = "failed" /\ error_message o = Some text).

(** The history record of an outcome, as [_record_history_entry] builds
    it. *)
Definition record_of (account_name : string) (prompt : SunoPrompt.t)
    (prompt_index : Z) (created_at : string) (o : SongOutcome)
    : SongCreationRecord.t :=
  {| SongCreationRecord.song_id :=
       match song_id o with Some s => s | None => "" end;
     SongCreationRecord.title := SunoPrompt.title prompt;
     SongCreationRecord.prompt_index := prompt_index;
     SongCreationRecord.account_name := account_name;
     SongCreationRecord.status := status_label o;
     SongCreationRecord.created_at := created_at;
     SongCreationRecord.error_message := error_message o |}.


(** Vocabulary for the history search. *)

Definition ci_substring (lower : string -> string) (keyword field : string)
    : Prop :=
  exists pre post, lower field = pre +:+ lower keyword +:+ post.

Definition keyword_hits (lower : string -> string) (keyword : string)
    (rec : SongCreationRecord.t) : Prop :=
  ci_substring lower keyword (SongCreationRecord.title rec) \/
  ci_substring lower keyword (SongCreationRecord.song_id rec) \/
  ci_substring lower keyword (SongCreationRecord.status rec).

(** Vocabulary for the rate-limit properties. *)

(** Requests that are each answered 429 first; [snd] is the answer to the
    retry. *)
Definition throttled (exchanges : list (option string * answer))
    : list answer :=
  List.concat (List.map (fun '(d, r) => [Answer 429 d; r]) exchanges).

Definition backoff_waits (from n : nat) : list Z :=
  List.map (fun i => Z.min (10 + 5 * Z.of_nat i) 60) (seq from n).

Fixpoint nondecreasing (l : list Z) : Prop :=
  match l with
  | a :: (b :: _) as rest => a <= b /\ nondecreasing rest
  | _ => True
  end.

(** The back-off claim, as the specification words it: the server's answers
    drive exactly three waits, then the wait is back at its base value. *)
Definition backoff_claim_at (server : list answer) : Prop :=
  let client := serve_all (length server) server new_client in
  length (sleeps client) = 3%nat /\
  nondecreasing (sleeps client) /\
  _rate_limit_wait client = 10.


(** Vocabulary for the download properties. *)

Definition downloaded_ids_of (evs : list download_event) : list string :=
  List.flat_map
    (fun ev => match ev with Downloaded c => [SongClip.id c] | _ => [] end) evs.

(** The dedup set after the events [evs], starting from [start]. *)
Definition ids_after (start : list string) (evs : list download_event)
    : list string :=
  start ++ downloaded_ids_of evs.

(** Replaying the events from the dedup set [seen]: an item is skipped only
    when its id is in the set at that moment, a download is tried only when
    it is not, and only a successful download adds the id. *)
Fixpoint complement_trace (seen : list string) (evs : list download_event)
    : Prop :=
  match evs with
  | [] => True
  | Skipped c :: rest => (SongClip.id c ∈ seen) /\ complement_trace seen rest
  | Downloaded c :: rest =>
      (SongClip.id c ∉ seen) /\ complement_trace (seen ++ [SongClip.id c]) rest
  | DownloadFailed c :: rest =>
      (SongClip.id c ∉ seen) /\ complement_trace seen rest
  end.

Definition is_skipped (ev : download_event) : bool :=
  match ev with Skipped _ => true | _ => false end.

Definition is_download (ev : download_event) : bool :=
  match ev with Downloaded _ => true | _ => false end.

Definition count_events (p : download_event -> bool)
    (evs : list download_event) : Z :=
  Z.of_nat (length (List.filter p evs)).

(** What holds of a run that began with the dedup set [start], zero
    statistics and no event. *)
Definition run_ok (start : list string) (r : Run) : Prop :=
  DownloadHistory.downloaded_ids (history r) = ids_after start (events r) /\
  complement_trace start (events r) /\
  stat_skipped (stats r) = count_events is_skipped (events r) /\
  stat_success (stats r) = count_events is_download (events r).

(** Number of items of the collection a run without limits goes through: the
    pages up to the first empty one, or up to the one that reports no more
    pages. *)
Fixpoint source_size (source : list page_response) : Z :=
  match source with
  | Page (c :: clips) has_more :: rest =>
      Z.of_nat (length (c :: clips)) + (if has_more then source_size rest else 0)
  | _ => 0
  end.

(** The mocked source of the repository's test: three pages of five clips. *)
Definition mock_clip (page i : nat) : SongClip.t :=
  {| SongClip.id := "clip-p" +:+ pretty page +:+ "-0" +:+ pretty i;
     SongClip.title := "Song Page" +:+ pretty page +:+ " #" +:+ pretty i;
     SongClip.audio_url := Some "https://example.com/audio.mp3";
     SongClip.image_url := Some "https://example.com/image.jpg";
     SongClip.tags := "test,mock";
     SongClip.created_at := Some "2025-11-09T00:00:00Z";
     SongClip.duration := None |}.

Definition mock_source : list page_response :=
  [Page (List.map (mock_clip 0) (seq 0 5)) true;
   Page (List.map (mock_clip 1) (seq 0 5)) true;
   Page (List.map (mock_clip 2) (seq 0 5)) false].


(** Items a run has dealt with for good: the quantity [max_clips] bounds. *)
Definition handled (r : Run) : Z :=
  stat_success (stats r) + stat_skipped (stats r).

Definition run_ids (r : Run) : list string :=
  DownloadHistory.downloaded_ids (history r).

Definition result_stats (x : Stats * list download_event * DownloadManager)
    : Stats := fst (fst x).
Definition result_events (x : Stats * list download_event * DownloadManager)
    : list download_event := snd (fst x).
Definition result_manager (x : Stats * list download_event * DownloadManager)
    : DownloadManager := snd x.


(** Vocabulary for the progress reports. *)

(** The percentage and prompt title of each progress call, in order. *)
Definition progress_calls (tr : list event) : list (Z * string) :=
  List.flat_map
    (fun ev => match ev with
               | Progress _ percent _ _ prompt_title => [(percent, prompt_title)]
               | _ => []
               end) tr.

Definition percent_of (completed total_songs : Z) : Z :=
  match progress_percent completed total_songs with
  | inr p => p
  | inl _ => 0
  end.

(** The calls for [prompts] when [completed] songs were dealt with before. *)
Fixpoint expected_calls (total_songs completed : Z) (prompts : list SunoPrompt.t)
    : list (Z * string) :=
  match prompts with
  | [] => []
  | prompt :: rest =>
      (percent_of (completed + 1) total_songs, SunoPrompt.title prompt)
      :: expected_calls total_songs (completed + 1) rest
  end.

(** The calls the specification announces: each song reported at the
    nearest integer to [100 * completed / total_songs] (halves upwards). *)
Fixpoint rounded_calls (total_songs completed : Z) (prompts : list SunoPrompt.t)
    : list (Z * string) :=
  match prompts with
  | [] => []
  | prompt :: rest =>
      ((200 * (completed + 1) + total_songs) / (2 * total_songs),
       SunoPrompt.title prompt)
      :: rounded_calls total_songs (completed + 1) rest
  end.

(** The session claim, as the specification words it, for one call of the
    engine: the tiered number of sessions, each of at most
    [ceil(N / session_count)] prompts. *)
Definition tiered_sessions_claim_at (prompts : list SunoPrompt.t)
    (songs_per_session : Z) : Prop :=
  let n := Z.of_nat (length prompts) in
  let k := _calculate_session_count n in
  Z.of_nat (length (session_slices prompts songs_per_session)) = k /\
  (forall i s, session_slices prompts songs_per_session !! i = Some s ->
     Z.of_nat (length s) <= (n + k - 1) / k).

Definition numbered_prompts (n : nat) : list SunoPrompt.t :=
  List.map (fun i => SunoPrompt.mk ("Song " +:+ pretty i) "Lyrics" "Pop")
    (seq 1 n).

(** A browser in which every form is filled and every song URL is reached. *)
Definition smooth_env : BatchEnv :=
  {| driver_failure := None;
     sessions := fun _ =>
       {| tabs := fun _ =>
            {| fill_ok := true;
               submit := UrlReached "https://suno.com/song/abc-123";
               now := "2025-11-09 10:00:00" |};
          crash_at := None |} |}.


(** The percentage claim, as the specification words it, for a batch run in
    one session by a browser that never fails. *)
Definition rounded_percent_claim_at (prompts : list SunoPrompt.t) : Prop :=
  progress_calls
    (trace (snd (create_songs_batch smooth_env prompts
                   (Z.of_nat (length prompts)) true true (Some "acc1")
                   "profile1"
                   {| driver := false; history_manager := None; trace := [] |})))
  = rounded_calls (Z.of_nat (length prompts)) 0 prompts
    ++ [(100, "Batch finished")].

(* ===================================================================== *)
(** * Theorems *)
(* ===================================================================== *)

(** ** Queue manager *)

Ltac qm_unfold :=
  unfold add_queue_entry, _ensure_prompts, qbind, qwhen, qraise, qget, qput,
    qret in *; simpl in *.

Ltac qm_cases :=
  repeat match goal with
         | |- context [bool_decide ?P] => destruct (bool_decide_reflect P); simpl
         | |- context [?a <=? ?b] => destruct (Z.leb_spec a b); simpl
         | |- context [?a <? ?b] => destruct (Z.ltb_spec a b); simpl
         end.

Lemma fresh_manager_ok : allocation_ok fresh_manager.
Proof.
  split; [simpl; lia|]. split; intros *; simpl.
  - rewrite lookup_empty. discriminate.
  - intros _. rewrite lookup_empty. discriminate.
Qed.

Lemma allocation_ok_no_entries ps c :
  0 <= c <= Z.of_nat (length ps) ->
  allocation_ok {| prompts := ps; prompt_cursor := c; queues := ∅ |}.
Proof.
  intros Hc. split; [exact Hc|]. split; intros *; simpl.
  - rewrite lookup_empty. discriminate.
  - intros _. rewrite lookup_empty. discriminate.
Qed.

Lemma allocation_ok_insert self new_id e total :
  allocation_ok self ->
  0 < total ->
  prompt_cursor self + total <= Z.of_nat (length (prompts self)) ->
  QueueEntry.prompts_range e = (prompt_cursor self, prompt_cursor self + total) ->
  allocation_ok {| prompts := prompts self;
                   prompt_cursor := prompt_cursor self + total;
                   queues := <[new_id := e]> (queues self) |}.
Proof.
  intros (Hc & Hr & Hd) Ht Hfit He. split; [simpl; lia|]. split; simpl.
  - intros i e' Hi. apply lookup_insert_Some in Hi as [[-> <-]|[_ Hi]].
    + rewrite He. simpl. lia.
    + specialize (Hr _ _ Hi). lia.
  - intros i j e1 e2 Hij Hi Hj. unfold ranges_disjoint.
    apply lookup_insert_Some in Hi as [[-> <-]|[Hni Hi]];
      apply lookup_insert_Some in Hj as [[-> <-]|[Hnj Hj]].
    + congruence.
    + rewrite He. simpl. specialize (Hr _ _ Hj). lia.
    + rewrite He. simpl. specialize (Hr _ _ Hi). lia.
    + exact (Hd _ _ _ _ Hij Hi Hj).
Qed.

Lemma ensure_prompts_cases ps self :
  let s1 := snd (_ensure_prompts ps self) in
  s1 = self \/
  (s1 = {| prompts := ps; prompt_cursor := 0; queues := queues self |} /\
   ps <> [] /\ prompts self <> ps /\
   (prompts self = [] \/ queues self = ∅)).
Proof.
  qm_unfold.
  destruct (bool_decide_reflect (ps = [])) as [Hps|Hps]; simpl; [now left|].
  destruct (bool_decide_reflect (prompts self <> [])) as [Hne|He]; simpl.
  - destruct (bool_decide_reflect (prompts self <> ps)) as [Hd|Hs]; simpl.
    + destruct (bool_decide_reflect (queues self <> ∅)) as [Hq|Hq]; simpl;
        [now left|].
      destruct (bool_decide_reflect (prompts self = [])); simpl;
        right; repeat split; auto; right;
        destruct (decide (queues self = ∅)); tauto.
    + destruct (bool_decide_reflect (prompts self = [])); simpl; [tauto|].
      now left.
  - assert (prompts self = []) as Hnil
      by (destruct (decide (prompts self = [])); tauto).
    destruct (bool_decide_reflect (prompts self = [])); simpl; [|tauto].
    right. repeat split; auto. congruence.
Qed.

Lemma add_queue_entry_eq new_id now acc total spb ps self :
  add_queue_entry new_id now acc total spb ps self =
  match _ensure_prompts ps self with
  | (inl e, s1) => (inl e, s1)
  | (inr _, s1) =>
      if (total <=? 0) || (spb <=? 0)
      then (inl (QVE "Song counts must be positive"), s1)
      else if total <? spb
      then (inl (QVE "Songs per batch cannot exceed total songs"), s1)
      else if Z.of_nat (length (prompts s1)) <? prompt_cursor s1 + total
      then (inl (QVE "Not enough prompts remain to fulfill request"), s1)
      else
        let entry :=
          {| QueueEntry.id := new_id; QueueEntry.account_name := acc;
             QueueEntry.total_songs := total; QueueEntry.songs_per_batch := spb;
             QueueEntry.prompts_range :=
               (prompt_cursor s1, prompt_cursor s1 + total);
             QueueEntry.status := "pending"; QueueEntry.created_at := now;
             QueueEntry.completed_count := 0 |} in
        (inr entry, {| prompts := prompts s1;
                       prompt_cursor := prompt_cursor s1 + total;
                       queues := <[new_id := entry]> (queues s1) |})
  end.
Proof.
  unfold add_queue_entry. unfold qbind at 1.
  destruct (_ensure_prompts ps self) as [[e|[]] s1]; [reflexivity|].
  unfold qbind, qwhen, qraise, qget, qput, qret.
  destruct ((total <=? 0) || (spb <=? 0)); [reflexivity|].
  destruct (total <? spb); [reflexivity|].
  destruct (Z.of_nat (length (prompts s1)) <? prompt_cursor s1 + total);
    reflexivity.
Qed.

Lemma ensure_prompts_pool ps self s1 :
  _ensure_prompts ps self = (inr tt, s1) -> prompts s1 = ps.
Proof.
  qm_unfold.
  destruct (bool_decide_reflect (ps = [])); simpl; [discriminate|].
  destruct (bool_decide (prompts self <> []) && bool_decide (prompts self <> ps)
            && bool_decide (queues self <> ∅)); simpl; [discriminate|].
  destruct (bool_decide_reflect (prompts self = [])); simpl.
  - intros [= <-]. reflexivity.
  - destruct (bool_decide_reflect (prompts self <> ps)) as [|Hs]; simpl;
      intros [= <-]; simpl; auto.
    destruct (decide (prompts self = ps)); tauto.
Qed.

Lemma add_queue_entry_cases new_id now acc total spb ps self :
  let s1 := snd (_ensure_prompts ps self) in
  let entry :=
    {| QueueEntry.id := new_id; QueueEntry.account_name := acc;
       QueueEntry.total_songs := total; QueueEntry.songs_per_batch := spb;
       QueueEntry.prompts_range := (prompt_cursor s1, prompt_cursor s1 + total);
       QueueEntry.status := "pending"; QueueEntry.created_at := now;
       QueueEntry.completed_count := 0 |} in
  (exists msg,
      add_queue_entry new_id now acc total spb ps self = (inl (QVE msg), s1)) \/
  (0 < total /\ 0 < spb /\ spb <= total /\
   prompt_cursor s1 + total <= Z.of_nat (length (prompts s1)) /\
   prompts s1 = ps /\
   add_queue_entry new_id now acc total spb ps self =
     (inr entry, {| prompts := prompts s1;
                    prompt_cursor := prompt_cursor s1 + total;
                    queues := <[new_id := entry]> (queues s1) |})).
Proof.
  rewrite add_queue_entry_eq.
  destruct (_ensure_prompts ps self) as [[e|[]] s1] eqn:He; simpl.
  { left. destruct e. eauto. }
  pose proof (ensure_prompts_pool _ _ _ He) as Hpool.
  destruct (Z.leb_spec total 0); simpl; [left; eauto|].
  destruct (Z.leb_spec spb 0); simpl; [left; eauto|].
  destruct (Z.ltb_spec total spb); simpl; [left; eauto|].
  destruct (Z.ltb_spec (Z.of_nat (length (prompts s1))) (prompt_cursor s1 + total));
    simpl; [left; eauto|].
  right. repeat split; auto; lia.
Qed.

Lemma add_queue_entry_ok new_id now acc total spb ps self :
  allocation_ok self ->
  allocation_ok (snd (add_queue_entry new_id now acc total spb ps self)).
Proof.
  intros Hok.
  assert (allocation_ok (snd (_ensure_prompts ps self))) as Hok1.
  { destruct (ensure_prompts_cases ps self) as [->|(-> & Hps & _ & [Hnil|Hq])];
      [assumption| |].
    - destruct Hok as (Hc & Hr & _). rewrite Hnil in Hc. simpl in Hc.
      assert (queues self = ∅) as ->.
      { apply map_empty. intros i. destruct (queues self !! i) eqn:Hi; auto.
        specialize (Hr _ _ Hi). lia. }
      apply allocation_ok_no_entries. lia.
    - rewrite Hq. apply allocation_ok_no_entries. lia. }
  destruct (add_queue_entry_cases new_id now acc total spb ps self)
    as [[msg ->]|(Ht & _ & _ & Hfit & _ & ->)]; simpl; [assumption|].
  apply (allocation_ok_insert _ new_id _ total); auto.
Qed.

Lemma remove_queue_entry_ok q self :
  allocation_ok self -> allocation_ok (snd (remove_queue_entry q self)).
Proof.
  intros Hok. unfold remove_queue_entry.
  destruct (queues self !! q); simpl; [|exact Hok].
  destruct Hok as (Hc & Hr & Hd).
  split; [exact Hc|]. split; simpl.
  - intros i e Hi. apply lookup_delete_Some in Hi as [_ Hi]. eauto.
  - intros i j e1 e2 Hij Hi Hj.
    apply lookup_delete_Some in Hi as [_ Hi].
    apply lookup_delete_Some in Hj as [_ Hj]. eauto.
Qed.

Lemma update_queue_progress_ok q c st self :
  allocation_ok self -> allocation_ok (snd (update_queue_progress q c st self)).
Proof.
  intros Hok. unfold update_queue_progress.
  destruct (queues self !! q) as [e0|] eqn:Hq; simpl; [|exact Hok].
  destruct Hok as (Hc & Hr & Hd).
  split; [exact Hc|]. split; simpl.
  - intros i e Hi. apply lookup_insert_Some in Hi as [[-> <-]|[_ Hi]];
      [simpl|]; eauto.
  - intros i j e1 e2 Hij Hi Hj. unfold ranges_disjoint.
    apply lookup_insert_Some in Hi as [[-> <-]|[_ Hi]];
      apply lookup_insert_Some in Hj as [[-> <-]|[_ Hj]]; simpl;
      try congruence; first [exact (Hd _ _ _ _ Hij Hq Hj)
                            | exact (Hd _ _ _ _ Hij Hi Hq)
                            | exact (Hd _ _ _ _ Hij Hi Hj)].
Qed.

Lemma apply_op_ok self o : allocation_ok self -> allocation_ok (apply_op self o).
Proof.
  destruct o; simpl; intros Hok.
  - now apply add_queue_entry_ok.
  - now apply remove_queue_entry_ok.
  - now apply update_queue_progress_ok.
  - assumption.
  - apply fresh_manager_ok.
Qed.

Lemma run_ops_ok ops : forall self,
  allocation_ok self -> allocation_ok (run_ops self ops).
Proof.
  induction ops as [|o ops IH]; intros self Hok; simpl; [assumption|].
  apply IH, apply_op_ok, Hok.
Qed.

(** C4. Whatever sequence of queue-manager calls a fresh manager has served
    (successful [add_queue_entry] calls against one pool in particular), the
    [prompts_range] intervals of the live entries lie within
    [[0, len(pool))] and the intervals of two different entries do not
    overlap. *)
Theorem live_ranges_disjoint_within_pool (ops : list queue_op) :
  (forall i e, queues (run_ops fresh_manager ops) !! i = Some e ->
     range_within (run_ops fresh_manager ops) e) /\
  (forall i j e1 e2, i <> j ->
     queues (run_ops fresh_manager ops) !! i = Some e1 ->
     queues (run_ops fresh_manager ops) !! j = Some e2 ->
     ranges_disjoint e1 e2).
Proof.
  destruct (run_ops_ok ops fresh_manager fresh_manager_ok) as (Hc & Hr & Hd).
  split; [|exact Hd].
  intros i e Hi. specialize (Hr _ _ Hi). unfold range_within. lia.
Qed.

Lemma ensure_prompts_state ps self :
  snd (_ensure_prompts ps self)
  = if replaces_pool self ps
    then {| prompts := ps; prompt_cursor := 0; queues := queues self |}
    else self.
Proof.
  unfold replaces_pool. qm_unfold.
  destruct (bool_decide_reflect (ps = [])) as [Hps|Hps]; simpl.
  { rewrite bool_decide_eq_false_2 by tauto. reflexivity. }
  rewrite (bool_decide_eq_true_2 (ps <> [])) by assumption. simpl.
  destruct (bool_decide_reflect (prompts self <> ps)) as [Hd|Hs]; simpl.
  - destruct (bool_decide_reflect (prompts self = [])) as [Hnil|Hnil]; simpl.
    + rewrite bool_decide_eq_false_2 by tauto. reflexivity.
    + rewrite (bool_decide_eq_true_2 (prompts self <> [])) by assumption.
      simpl.
      destruct (bool_decide_reflect (queues self = ∅)) as [Hq|Hq]; simpl.
      * rewrite bool_decide_eq_false_2 by tauto. reflexivity.
      * rewrite bool_decide_eq_true_2 by assumption. reflexivity.
  - rewrite andb_false_r. simpl.
    destruct (bool_decide_reflect (prompts self = [])) as [Hnil|Hnil]; simpl;
      [|reflexivity].
    exfalso. apply Hs. intros E. apply Hps. congruence.
Qed.

Lemma ensure_prompts_replacing ps self :
  replaces_pool self ps = true ->
  _ensure_prompts ps self
  = (inr tt, {| prompts := ps; prompt_cursor := 0; queues := queues self |}).
Proof.
  unfold replaces_pool. intros H.
  apply andb_true_iff in H as [H H3]. apply andb_true_iff in H as [H1 H2].
  apply bool_decide_eq_true in H1, H2. apply orb_true_iff in H3.
  qm_unfold. rewrite (bool_decide_eq_false_2 (ps = [])) by tauto. simpl.
  assert (bool_decide (prompts self <> []) && bool_decide (prompts self <> ps)
          && bool_decide (queues self <> ∅) = false) as ->.
  { destruct H3 as [Hnil|Hq].
    - apply bool_decide_eq_true in Hnil.
      rewrite (bool_decide_eq_false_2 (prompts self <> [])) by tauto.
      reflexivity.
    - apply bool_decide_eq_true in Hq.
      rewrite (bool_decide_eq_false_2 (queues self <> ∅)) by tauto.
      apply andb_false_r. }
  simpl. rewrite (bool_decide_eq_true_2 (prompts self <> ps)) by assumption.
  rewrite orb_true_r. reflexivity.
Qed.

(** C3 (as stated) fails in two ways once an entry was added and removed,
    which leaves the cursor at 3 with no live entry and 2 slots available.
    A call with a different two-prompt list asking for five songs is
    rejected, but the pool has already been replaced and the cursor reset to
    0.  A call with a different ten-prompt list asking for three songs,
    more than the 2 available slots, is accepted. *)
Lemma capacity_claim_fails_after_pool_switch :
  ~ capacity_claim_at after_add_remove "q2" "2025-11-09 10:05:00" "acc2" 5 1
      two_prompts /\
  ~ capacity_claim_at after_add_remove "q2" "2025-11-09 10:05:00" "acc2" 3 1
      ten_prompts.
Proof.
  assert (available_prompt_slots after_add_remove < 5) as Hlt5
    by (vm_compute; reflexivity).
  assert (available_prompt_slots after_add_remove < 3) as Hlt3
    by (vm_compute; reflexivity).
  unfold capacity_claim_at. split; intros H.
  - destruct (H Hlt5) as (_ & Hc & _). vm_compute in Hc. discriminate Hc.
  - destruct (H Hlt3) as ([msg Hm] & _). vm_compute in Hm. discriminate Hm.
Qed.

(** C3 (amended). Unless the call replaces the pool, a call of
    [add_queue_entry] whose [total_songs] exceeds the available prompt slots
    raises [QueueValidationError] and leaves the manager (pool, cursor and
    queue entries) unchanged; this is so in particular whenever the manager
    holds a pool and a queue entry.  A call replaces the pool when the
    supplied list is not empty, differs from the manager's pool, and the
    manager holds no pool or no queue entry; the slots are then those of the
    supplied list.  If [total_songs] exceeds its length the call raises
    [QueueValidationError] and leaves the queue entries unchanged, with the
    supplied list installed and the cursor at 0; if the counts are valid
    and [total_songs] is within its length the call is accepted, whatever
    slots were available before. *)
Theorem add_queue_entry_over_capacity self new_id now acc total spb ps :
  (replaces_pool self ps = false ->
   available_prompt_slots self < total ->
     (exists msg,
        fst (add_queue_entry new_id now acc total spb ps self) = inl (QVE msg)) /\
     snd (add_queue_entry new_id now acc total spb ps self) = self) /\
  (prompts self <> [] -> queues self <> ∅ ->
   available_prompt_slots self < total ->
     (exists msg,
        fst (add_queue_entry new_id now acc total spb ps self) = inl (QVE msg)) /\
     snd (add_queue_entry new_id now acc total spb ps self) = self) /\
  (replaces_pool self ps = true ->
   Z.of_nat (length ps) < total ->
     (exists msg,
        fst (add_queue_entry new_id now acc total spb ps self) = inl (QVE msg)) /\
     snd (add_queue_entry new_id now acc total spb ps self)
       = {| prompts := ps; prompt_cursor := 0; queues := queues self |}) /\
  (replaces_pool self ps = true ->
   0 < spb -> spb <= total -> total <= Z.of_nat (length ps) ->
     (exists entry,
        fst (add_queue_entry new_id now acc total spb ps self) = inr entry /\
        QueueEntry.prompts_range entry = (0, total)) /\
     prompt_cursor (snd (add_queue_entry new_id now acc total spb ps self))
       = total).
Proof.
  pose proof (ensure_prompts_state ps self) as Hs1.
  pose proof (add_queue_entry_cases new_id now acc total spb ps self) as Hc.
  cbv zeta in Hc.
  assert (replaces_pool self ps = false ->
          available_prompt_slots self < total ->
          (exists msg,
             fst (add_queue_entry new_id now acc total spb ps self)
               = inl (QVE msg)) /\
          snd (add_queue_entry new_id now acc total spb ps self) = self) as Hkeep.
  { intros Hr Hcap. rewrite Hr in Hs1. rewrite Hs1 in Hc.
    unfold available_prompt_slots in Hcap.
    destruct Hc as [[msg ->]|(_ & _ & _ & Hfit & _ & _)]; [simpl; eauto|lia]. }
  split; [exact Hkeep|]. split.
  { intros Hp Hq. apply Hkeep. unfold replaces_pool.
    rewrite (bool_decide_eq_false_2 (prompts self = [])) by assumption.
    rewrite (bool_decide_eq_false_2 (queues self = ∅)) by assumption.
    apply andb_false_r. }
  split.
  - intros Hr Hcap. rewrite Hr in Hs1. rewrite Hs1 in Hc. simpl in Hc.
    destruct Hc as [[msg ->]|(_ & _ & _ & Hfit & _ & _)]; [simpl; eauto|lia].
  - intros Hr Hspb Hle Hfit.
    rewrite add_queue_entry_eq, (ensure_prompts_replacing ps self Hr). simpl.
    destruct (Z.leb_spec total 0); [lia|].
    destruct (Z.leb_spec spb 0); [lia|]. simpl.
    destruct (Z.ltb_spec total spb); [lia|].
    destruct (Z.ltb_spec (Z.of_nat (length ps)) (0 + total)); [lia|].
    simpl. split; [eexists; split; reflexivity|lia].
Qed.

Lemma add_queue_entry_over_capacity_witness :
  let self := run_ops fresh_manager
                [OpAdd "q1" "2025-11-09 10:00:00" "acc1" 3 3 five_prompts] in
  ((exists msg,
      fst (add_queue_entry "q2" "2025-11-09 10:05:00" "acc2" 3 1 two_prompts self)
        = inl (QVE msg)) /\
   snd (add_queue_entry "q2" "2025-11-09 10:05:00" "acc2" 3 1 two_prompts self)
     = self) /\
  ((exists msg,
      fst (add_queue_entry "q2" "2025-11-09 10:05:00" "acc2" 5 1 two_prompts
             after_add_remove) = inl (QVE msg)) /\
   snd (add_queue_entry "q2" "2025-11-09 10:05:00" "acc2" 5 1 two_prompts
          after_add_remove)
     = {| prompts := two_prompts; prompt_cursor := 0;
          queues := queues after_add_remove |}).
Proof.
  intros self. split.
  - apply (proj1 (add_queue_entry_over_capacity self "q2" "2025-11-09 10:05:00"
                    "acc2" 3 1 two_prompts)).
    + vm_compute. reflexivity.
    + vm_compute. reflexivity.
  - apply (proj1 (proj2 (proj2
             (add_queue_entry_over_capacity after_add_remove "q2"
                "2025-11-09 10:05:00" "acc2" 5 1 two_prompts)))).
    + vm_compute. reflexivity.
    + vm_compute. reflexivity.
Defined.

(** C5 (as stated) fails: with no [clear()] anywhere, adding and removing an
    entry leaves the cursor at 3; a later [add_queue_entry] with another
    prompt list replaces the pool and the cursor ends at 1. *)
Lemma cursor_decreases_on_pool_switch :
  ~ cursor_monotone_claim_at
      [OpAdd "q1" "2025-11-09 10:00:00" "acc1" 3 3 five_prompts; OpRemove "q1"]
      [OpAdd "q2" "2025-11-09 10:05:00" "acc2" 1 1 two_prompts].
Proof.
  unfold cursor_monotone_claim_at. intros H.
  specialize (H eq_refl). vm_compute in H. apply H. reflexivity.
Qed.

Lemma cursor_step self o :
  allocation_ok self ->
  is_clear o = false -> switches_pool self o = false ->
  prompt_cursor self <= prompt_cursor (apply_op self o).
Proof.
  intros Hok Hcl Hsw.
  destruct o as [new_id now acc total spb ps|q|q c st|n|]; simpl in *.
  - assert (prompt_cursor self
            <= prompt_cursor (snd (_ensure_prompts ps self))) as Hle.
    { rewrite ensure_prompts_state.
      destruct (replaces_pool self ps) eqn:Hr; [|lia].
      rewrite andb_true_r in Hsw. apply bool_decide_eq_false in Hsw.
      assert (prompts self = []) as Hnil
        by (destruct (decide (prompts self = [])); tauto).
      destruct Hok as (Hc & _). rewrite Hnil in Hc. simpl in *. lia. }
    destruct (add_queue_entry_cases new_id now acc total spb ps self)
      as [[msg ->]|(Ht & _ & _ & _ & _ & ->)]; simpl; lia.
  - unfold remove_queue_entry. destruct (queues self !! q); simpl; lia.
  - unfold update_queue_progress. destruct (queues self !! q); simpl; lia.
  - lia.
  - discriminate Hcl.
Qed.

Lemma cursor_run ops : forall self,
  allocation_ok self -> keeps_pool self ops = true ->
  prompt_cursor self <= prompt_cursor (run_ops self ops).
Proof.
  induction ops as [|o ops IH]; intros self Hok Hk; [simpl; lia|].
  change (run_ops self (o :: ops)) with (run_ops (apply_op self o) ops).
  simpl in Hk.
  apply andb_true_iff in Hk as [Hk Hrest]. apply andb_true_iff in Hk as [Hc Hs].
  apply negb_true_iff in Hc, Hs.
  pose proof (cursor_step self o Hok Hc Hs).
  specialize (IH (apply_op self o) (apply_op_ok self o Hok) Hrest).
  lia.
Qed.

(** C5 (amended). From any point of a run of the manager (any state reached
    from a fresh manager) the cursor never decreases over the operations
    that follow, as long as none of them is [clear()] or an
    [add_queue_entry] call that switches the pool, that is, supplies a
    non-empty list different from the installed pool while no queue entry
    exists; rejected calls, whatever list they supply, leave the cursor
    where it is.  A call that switches the pool installs the supplied list
    and restarts the cursor: it ends at 0 when the call is rejected and at
    [total_songs] when it is accepted. *)
Theorem cursor_monotone_without_switch (ops1 ops2 : list queue_op) :
  keeps_pool (run_ops fresh_manager ops1) ops2 = true ->
  prompt_cursor (run_ops fresh_manager ops1)
    <= prompt_cursor (run_ops fresh_manager (ops1 ++ ops2)) /\
  (forall self new_id now acc total spb ps,
     switches_pool self (OpAdd new_id now acc total spb ps) = true ->
     prompts (snd (add_queue_entry new_id now acc total spb ps self)) = ps /\
     queues self = ∅ /\
     (((exists msg,
          fst (add_queue_entry new_id now acc total spb ps self) = inl (QVE msg)) /\
       prompt_cursor (snd (add_queue_entry new_id now acc total spb ps self)) = 0)
      \/
      ((exists entry,
          fst (add_queue_entry new_id now acc total spb ps self) = inr entry) /\
       prompt_cursor (snd (add_queue_entry new_id now acc total spb ps self))
         = total))).
Proof.
  intros Hk. split.
  - unfold run_ops. rewrite fold_left_app. fold (run_ops fresh_manager ops1).
    apply cursor_run; [|exact Hk].
    apply run_ops_ok, fresh_manager_ok.
  - intros self new_id now acc total spb ps Hsw. simpl in Hsw.
    apply andb_true_iff in Hsw as [Hp Hr]. apply bool_decide_eq_true in Hp.
    assert (queues self = ∅) as Hq.
    { unfold replaces_pool in Hr. apply andb_true_iff in Hr as [_ Hr].
      apply orb_true_iff in Hr as [Hr|Hr]; apply bool_decide_eq_true in Hr;
        [contradiction|exact Hr]. }
    pose proof (ensure_prompts_state ps self) as Hs1. rewrite Hr in Hs1.
    destruct (add_queue_entry_cases new_id now acc total spb ps self)
      as [[msg ->]|(_ & _ & _ & _ & _ & ->)]; rewrite Hs1; simpl.
    + split; [reflexivity|]. split; [exact Hq|]. left. eauto.
    + split; [reflexivity|]. split; [exact Hq|]. right. split; [eauto|lia].
Qed.

(** A run with two rejected calls, one of them an attempt to switch the pool
    while an entry exists: the cursor goes 3, 3, 3, 4. *)
Lemma cursor_monotone_without_switch_witness :
  prompt_cursor
    (run_ops fresh_manager
       [OpAdd "q1" "2025-11-09 10:00:00" "acc1" 3 3 five_prompts])
  <= prompt_cursor
       (run_ops fresh_manager
          ([OpAdd "q1" "2025-11-09 10:00:00" "acc1" 3 3 five_prompts]
           ++ [OpAdd "q2" "2025-11-09 10:05:00" "acc2" 1 1 two_prompts;
               OpAdd "q3" "2025-11-09 10:06:00" "acc2" 1 1 [];
               OpAdd "q4" "2025-11-09 10:07:00" "acc2" 1 1 five_prompts])).
Proof.
  apply (cursor_monotone_without_switch
           [OpAdd "q1" "2025-11-09 10:00:00" "acc1" 3 3 five_prompts]).
  vm_compute. reflexivity.
Defined.


(** ** Batch song creation engine *)

Lemma append_nil_l s : "" +:+ s = s.
Proof. reflexivity. Qed.

Lemma append_cons c s t : String c s +:+ t = String c (s +:+ t).
Proof. reflexivity. Qed.

Lemma append_nil_r s : s +:+ "" = s.
Proof. induction s as [|c s IH]; [reflexivity|]. rewrite append_cons, IH. reflexivity. Qed.

Lemma append_assoc s t u : (s +:+ t) +:+ u = s +:+ (t +:+ u).
Proof.
  induction s as [|c s IH]; [reflexivity|].
  rewrite !append_cons, IH. reflexivity.
Qed.

Lemma rstrip_slashes k : rstrip_slash (slashes k) = "".
Proof. induction k as [|k IH]; simpl; [reflexivity|]. rewrite IH. reflexivity. Qed.

Lemma rstrip_append_stripped s t :
  rstrip_slash t = "" -> rstrip_slash (s +:+ t) = rstrip_slash s.
Proof.
  intros Ht. induction s as [|c s IH].
  - rewrite append_nil_l. exact Ht.
  - rewrite append_cons. simpl. rewrite IH. reflexivity.
Qed.

Lemma rstrip_no_slash seg : has_slash seg = false -> rstrip_slash seg = seg.
Proof.
  induction seg as [|c seg IH]; simpl; [reflexivity|].
  intros H. apply orb_false_iff in H as [Hc Hs].
  rewrite (IH Hs), Hc. destruct seg; reflexivity.
Qed.

Lemma rstrip_keeps_segment s seg :
  seg <> "" -> has_slash seg = false ->
  rstrip_slash (s +:+ seg) = s +:+ seg.
Proof.
  intros Hne Hns. induction s as [|c s IH].
  - rewrite append_nil_l. now apply rstrip_no_slash.
  - rewrite append_cons. simpl. rewrite IH.
    destruct (s +:+ seg) eqn:E; [|reflexivity].
    destruct s; [rewrite append_nil_l in E; contradiction | discriminate E].
Qed.

Lemma split_no_slash seg : has_slash seg = false -> split_slash seg = [seg].
Proof.
  induction seg as [|c seg IH]; simpl; [reflexivity|].
  intros H. apply orb_false_iff in H as [Hc Hs].
  rewrite Hc, (IH Hs). reflexivity.
Qed.

Lemma split_slash_nonempty s : split_slash s <> [].
Proof.
  destruct s as [|c s]; simpl; [discriminate|].
  destruct (Ascii.eqb c slash); [discriminate|].
  destruct (split_slash s); discriminate.
Qed.

Lemma split_before_segment p seg :
  has_slash seg = false ->
  split_slash (p +:+ "/" +:+ seg) = split_slash p ++ [seg].
Proof.
  intros Hns. induction p as [|c p IH].
  - rewrite append_nil_l. change ("/" +:+ seg) with (String slash seg).
    simpl. rewrite (split_no_slash _ Hns). reflexivity.
  - rewrite append_cons. simpl. rewrite IH.
    destruct (Ascii.eqb c slash); [reflexivity|].
    destruct (split_slash p) as [|h t] eqn:E; [|reflexivity].
    exfalso. exact (split_slash_nonempty p E).
Qed.

Lemma extract_song_id_segment p seg k :
  seg <> "" -> has_slash seg = false ->
  _extract_song_id (p +:+ "/" +:+ seg +:+ slashes k) = seg.
Proof.
  intros Hne Hns. unfold _extract_song_id.
  replace (p +:+ "/" +:+ seg +:+ slashes k)
    with ((p +:+ "/") +:+ seg +:+ slashes k) by (now rewrite append_assoc).
  rewrite <- append_assoc.
  rewrite (rstrip_append_stripped _ _ (rstrip_slashes k)).
  rewrite (rstrip_keeps_segment _ _ Hne Hns).
  rewrite append_assoc, (split_before_segment _ _ Hns).
  apply last_last.
Qed.





(** ** Song creation history *)

Lemma prefix_spec n h :
  String.prefix n h = true <-> exists post, h = n +:+ post.
Proof.
  revert h. induction n as [|a n IH]; intros [|b h]; simpl.
  - split; [intros _; exists ""; reflexivity | intros _; reflexivity].
  - split; [intros _; exists (String b h); reflexivity | intros _; reflexivity].
  - split; [discriminate | intros [post H]; discriminate H].
  - destruct (ascii_dec a b) as [->|Hne].
    + rewrite IH. split; intros [post H]; exists post.
      * rewrite append_cons, H. reflexivity.
      * rewrite append_cons in H. now injection H.
    + split; [discriminate|]. intros [post H].
      rewrite append_cons in H. injection H as E _. congruence.
Qed.

Lemma str_contains_eq n h :
  str_contains n h
  = String.prefix n h ||
    match h with
    | EmptyString => false
    | String _ h' => str_contains n h'
    end.
Proof. destruct h; reflexivity. Qed.

Lemma str_contains_spec n h :
  str_contains n h = true <-> exists pre post, h = pre +:+ n +:+ post.
Proof.
  split.
  - induction h as [|c h IH]; rewrite str_contains_eq, orb_true_iff.
    + intros [H|H]; [|discriminate].
      apply prefix_spec in H as [post H]. exists "", post. exact H.
    + intros [H|H].
      * apply prefix_spec in H as [post H]. exists "", post. exact H.
      * destruct (IH H) as (pre & post & E).
        exists (String c pre), post. rewrite append_cons, E. reflexivity.
  - intros (pre & post & E). revert h E.
    induction pre as [|c pre IH]; intros h E.
    + rewrite append_nil_l in E.
      assert (String.prefix n h = true) as Hp by (apply prefix_spec; eauto).
      rewrite str_contains_eq, Hp. reflexivity.
    + rewrite append_cons in E. subst h. rewrite str_contains_eq.
      rewrite (IH _ eq_refl). apply orb_true_r.
Qed.

Lemma record_matches_spec lower keyword rec :
  record_matches lower keyword rec = true <-> keyword_hits lower keyword rec.
Proof.
  unfold record_matches, keyword_hits, ci_substring.
  rewrite !orb_true_iff, !str_contains_spec. tauto.
Qed.


(** ** API client rate limiting *)


Lemma throttled_requests exchanges : forall (k : nat) past rest,
  make_requests (length exchanges) (throttled exchanges ++ rest)
    {| _rate_limit_wait := Z.min (10 + 5 * Z.of_nat k) 60; sleeps := past |}
  = ({| _rate_limit_wait :=
          Z.min (10 + 5 * Z.of_nat (k + length exchanges)) 60;
        sleeps := past ++ backoff_waits k (length exchanges) |}, rest).
Proof.
  induction exchanges as [|[d r] ex IH]; intros k past rest.
  - simpl. rewrite Nat.add_0_r. unfold backoff_waits. simpl.
    rewrite app_nil_r. reflexivity.
  - simpl. fold (throttled ex).
    replace (Z.min (Z.min (10 + 5 * Z.of_nat k) 60 + 5) 60)
      with (Z.min (10 + 5 * Z.of_nat (S k)) 60) by lia.
    rewrite IH. unfold backoff_waits. simpl.
    rewrite <- app_assoc. simpl.
    replace (k + S (length ex))%nat with (S k + length ex)%nat by lia.
    reflexivity.
Qed.


(** ** Paginated download *)

Lemma add_download_new x now h :
  x ∉ DownloadHistory.downloaded_ids h ->
  DownloadHistory.downloaded_ids (DownloadHistory.add_download x now h)
  = DownloadHistory.downloaded_ids h ++ [x].
Proof.
  intros Hx. unfold DownloadHistory.add_download, DownloadHistory.is_downloaded.
  destruct (bool_decide_reflect (x ∈ DownloadHistory.downloaded_ids h));
    [contradiction|reflexivity].
Qed.

Lemma ids_after_snoc start evs ev :
  ids_after start (evs ++ [ev])
  = ids_after start evs
    ++ match ev with Downloaded c => [SongClip.id c] | _ => [] end.
Proof.
  unfold ids_after, downloaded_ids_of. rewrite flat_map_app. simpl.
  rewrite app_nil_r, app_assoc. reflexivity.
Qed.

Lemma ids_after_cons seen ev evs :
  ids_after seen (ev :: evs)
  = ids_after
      (seen ++ match ev with Downloaded c => [SongClip.id c] | _ => [] end) evs.
Proof.
  unfold ids_after. simpl. rewrite <- app_assoc. reflexivity.
Qed.

Lemma complement_trace_snoc evs : forall seen ev,
  complement_trace seen evs ->
  match ev with
  | Skipped c => SongClip.id c ∈ ids_after seen evs
  | Downloaded c | DownloadFailed c => SongClip.id c ∉ ids_after seen evs
  end ->
  complement_trace seen (evs ++ [ev]).
Proof.
  induction evs as [|e evs IH]; intros seen ev Htr Hev.
  - unfold ids_after in Hev. simpl in Hev. rewrite app_nil_r in Hev.
    destruct ev; simpl; auto.
  - rewrite ids_after_cons in Hev.
    destruct e as [c|c|c]; simpl in *; destruct Htr as [Hc Htr];
      (split; [exact Hc|]); apply IH; auto;
      rewrite app_nil_r in Hev; exact Hev.
Qed.

Lemma count_events_snoc p evs ev :
  count_events p (evs ++ [ev])
  = count_events p evs + (if p ev then 1 else 0).
Proof.
  unfold count_events. rewrite List.filter_app, List.length_app. simpl.
  destruct (p ev); simpl; lia.
Qed.

Section DownloadRun.
Variable download_clip : nat -> SongClip.t -> bool.
Variable clock : nat -> string.
Variables (max_pages max_clips : option Z).
Variable start : list string.

Lemma process_clip_ok clip r :
  run_ok start r -> run_ok start (process_clip download_clip clock clip r).
Proof.
  intros (Hids & Htr & Hsk & Hok). unfold process_clip, run_ok.
  unfold DownloadHistory.is_downloaded.
  destruct (bool_decide_reflect
              (SongClip.id clip ∈ DownloadHistory.downloaded_ids (history r)))
    as [Hin|Hout]; [|destruct (download_clip _ clip)]; simpl;
    rewrite ids_after_snoc, !count_events_snoc; simpl.
  - rewrite app_nil_r. repeat split; auto; try lia.
    apply complement_trace_snoc; [assumption|]. now rewrite <- Hids.
  - rewrite add_download_new by assumption. rewrite Hids.
    repeat split; auto; try lia.
    apply complement_trace_snoc; [assumption|]. now rewrite <- Hids.
  - rewrite app_nil_r. repeat split; auto; try lia.
    apply complement_trace_snoc; [assumption|]. now rewrite <- Hids.
Qed.

Lemma process_page_ok clips : forall r,
  run_ok start r -> run_ok start (process_page download_clip clock max_clips clips r).
Proof.
  induction clips as [|clip clips IH]; intros r Hr; simpl; [assumption|].
  destruct (reached max_clips _); [assumption|].
  apply IH, process_clip_ok, Hr.
Qed.

Lemma page_loop_ok source : forall pages_processed r,
  run_ok start r ->
  run_ok start (page_loop download_clip clock max_pages max_clips source
            pages_processed r).
Proof.
  induction source as [|resp source IH]; intros pp r Hr; simpl.
  - destruct (reached max_pages pp); [assumption|].
    destruct (reached max_clips _); assumption.
  - destruct (reached max_pages pp); [assumption|].
    destruct (reached max_clips _); [assumption|].
    destruct resp as [[|c clips] has_more|text]; [assumption| |exact Hr].
    assert (run_ok start (process_page download_clip clock max_clips (c :: clips)
                      (count_page r))) as Hr'
      by (apply process_page_ok; exact Hr).
    destruct has_more; [apply IH|]; exact Hr'.
Qed.
End DownloadRun.

Lemma add_download_keeps x y now h :
  x ∈ DownloadHistory.downloaded_ids h ->
  x ∈ DownloadHistory.downloaded_ids (DownloadHistory.add_download y now h).
Proof.
  intros Hx. unfold DownloadHistory.add_download.
  destruct (DownloadHistory.is_downloaded y h); simpl; [assumption|].
  apply elem_of_app. now left.
Qed.

Lemma add_download_has y now h :
  y ∈ DownloadHistory.downloaded_ids (DownloadHistory.add_download y now h).
Proof.
  unfold DownloadHistory.add_download, DownloadHistory.is_downloaded.
  destruct (bool_decide_reflect (y ∈ DownloadHistory.downloaded_ids h));
    simpl; [assumption|].
  apply elem_of_app. right. apply list_elem_of_singleton. reflexivity.
Qed.

Section Monotone.
Variable download_clip : nat -> SongClip.t -> bool.
Variable clock : nat -> string.
Variables (max_pages max_clips : option Z).

Lemma process_clip_mono clip r :
  stat_failed (stats r)
    <= stat_failed (stats (process_clip download_clip clock clip r)) /\
  (forall x, x ∈ run_ids r ->
             x ∈ run_ids (process_clip download_clip clock clip r)) /\
  handled (process_clip download_clip clock clip r)
    + stat_failed (stats (process_clip download_clip clock clip r))
  = handled r + stat_failed (stats r) + 1 /\
  stat_total_pages (stats (process_clip download_clip clock clip r))
  = stat_total_pages (stats r).
Proof.
  unfold process_clip, handled, run_ids.
  destruct (DownloadHistory.is_downloaded _ _);
    [|destruct (download_clip _ clip)]; simpl; repeat split; auto; try lia.
  intros x Hx. now apply add_download_keeps.
Qed.

Lemma process_page_mono clips : forall r,
  stat_failed (stats r)
    <= stat_failed (stats (process_page download_clip clock max_clips clips r)) /\
  (forall x, x ∈ run_ids r ->
     x ∈ run_ids (process_page download_clip clock max_clips clips r)) /\
  stat_total_pages (stats (process_page download_clip clock max_clips clips r))
  = stat_total_pages (stats r).
Proof.
  induction clips as [|clip clips IH]; intros r; simpl.
  - repeat split; auto; lia.
  - destruct (reached max_clips _); [repeat split; auto; lia|].
    destruct (process_clip_mono clip r) as (Hf & Hi & _ & Hp).
    destruct (IH (process_clip download_clip clock clip r)) as (Hf' & Hi' & Hp').
    repeat split; [lia|auto|congruence].
Qed.

Lemma page_loop_mono source : forall pages_processed r,
  stat_failed (stats r)
    <= stat_failed (stats (page_loop download_clip clock max_pages max_clips
                             source pages_processed r)) /\
  (forall x, x ∈ run_ids r ->
     x ∈ run_ids (page_loop download_clip clock max_pages max_clips source
                    pages_processed r)).
Proof.
  induction source as [|resp source IH]; intros pp r; simpl.
  - destruct (reached max_pages pp); [split; auto; lia|].
    destruct (reached max_clips _); split; auto; lia.
  - destruct (reached max_pages pp); [split; auto; lia|].
    destruct (reached max_clips _); [split; auto; lia|].
    destruct resp as [[|c clips] has_more|text];
      [split; auto; lia| |simpl; split; auto; lia].
    destruct (process_page_mono (c :: clips) (count_page r)) as (Hf & Hi & _).
    destruct has_more; [|split; [exact Hf|exact Hi]].
    destruct (IH (pp + 1)
                (process_page download_clip clock max_clips (c :: clips)
                   (count_page r))) as (Hf' & Hi').
    split; [simpl in *; lia|]. intros x Hx. apply Hi', Hi, Hx.
Qed.

Lemma process_page_size clips : forall r,
  max_clips = None ->
  handled (process_page download_clip clock max_clips clips r)
    + stat_failed (stats (process_page download_clip clock max_clips clips r))
  = handled r + stat_failed (stats r) + Z.of_nat (length clips).
Proof.
  intros r ->. revert r.
  induction clips as [|clip clips IH]; intros r; simpl; [lia|].
  rewrite IH. destruct (process_clip_mono clip r) as (_ & _ & H & _). lia.
Qed.
End Monotone.

Section Replay.
Variables (dl1 dl2 : nat -> SongClip.t -> bool) (clock1 clock2 : nat -> string).
Variables (max_pages max_clips : option Z).

(** A clip that the first run handled without failure is skipped by a run
    whose dedup set contains the ids the first run ended with. *)
Lemma process_clip_replay clip a b :
  stat_failed (stats (process_clip dl1 clock1 clip a)) = stat_failed (stats a) ->
  (forall x, x ∈ run_ids (process_clip dl1 clock1 clip a) -> x ∈ run_ids b) ->
  handled (process_clip dl1 clock1 clip a) = handled a + 1 /\
  history (process_clip dl2 clock2 clip b) = history b /\
  stat_success (stats (process_clip dl2 clock2 clip b)) = stat_success (stats b) /\
  stat_failed (stats (process_clip dl2 clock2 clip b)) = stat_failed (stats b) /\
  stat_skipped (stats (process_clip dl2 clock2 clip b))
    = stat_skipped (stats b) + 1 /\
  stat_total_pages (stats (process_clip dl2 clock2 clip b))
    = stat_total_pages (stats b).
Proof.
  intros Hnf Hsub.
  assert (SongClip.id clip ∈ run_ids b) as Hin.
  { apply Hsub. revert Hnf. unfold process_clip, run_ids,
      DownloadHistory.is_downloaded.
    destruct (bool_decide_reflect
                (SongClip.id clip ∈ DownloadHistory.downloaded_ids (history a)));
      [|destruct (dl1 _ clip)]; simpl; intros Hnf.
    - assumption.
    - apply add_download_has.
    - lia. }
  split.
  - destruct (process_clip_mono dl1 clock1 clip a) as (_ & _ & H & _). lia.
  - unfold process_clip, DownloadHistory.is_downloaded.
    destruct (bool_decide_reflect
                (SongClip.id clip ∈ DownloadHistory.downloaded_ids (history b)));
      [|contradiction].
    simpl. repeat split; reflexivity.
Qed.

Lemma process_page_replay clips : forall a b,
  handled a = handled b ->
  stat_failed (stats (process_page dl1 clock1 max_clips clips a))
    = stat_failed (stats a) ->
  (forall x, x ∈ run_ids (process_page dl1 clock1 max_clips clips a) ->
             x ∈ run_ids b) ->
  history (process_page dl2 clock2 max_clips clips b) = history b /\
  stat_success (stats (process_page dl2 clock2 max_clips clips b))
    = stat_success (stats b) /\
  stat_failed (stats (process_page dl2 clock2 max_clips clips b))
    = stat_failed (stats b) /\
  handled (process_page dl2 clock2 max_clips clips b)
    = handled (process_page dl1 clock1 max_clips clips a) /\
  stat_total_pages (stats (process_page dl2 clock2 max_clips clips b))
    = stat_total_pages (stats b).
Proof.
  induction clips as [|clip clips IH]; intros a b Hh Hnf Hsub; simpl in *.
  - repeat split; auto.
  - fold (handled a) in *. fold (handled b). rewrite <- Hh.
    destruct (reached max_clips (handled a)); [repeat split; auto|].
    destruct (process_clip_mono dl1 clock1 clip a) as (Hf1 & Hi1 & _).
    destruct (process_page_mono dl1 clock1 max_clips clips
                (process_clip dl1 clock1 clip a)) as (Hf2 & Hi2 & _).
    destruct (process_clip_replay clip a b) as (Ha & Hb1 & Hb2 & Hb3 & Hb4 & Hb5);
      [lia | intros x Hx; apply Hsub, Hi2, Hx |].
    destruct (IH (process_clip dl1 clock1 clip a) (process_clip dl2 clock2 clip b))
      as (H1 & H2 & H3 & H4 & H5).
    + unfold handled in *. lia.
    + lia.
    + intros x Hx. unfold run_ids. rewrite Hb1. apply Hsub, Hx.
    + repeat split; congruence.
Qed.

Lemma page_loop_replay source : forall pages_processed a b,
  handled a = handled b ->
  stat_failed (stats (page_loop dl1 clock1 max_pages max_clips source
                        pages_processed a)) = stat_failed (stats a) ->
  (forall x,
     x ∈ run_ids (page_loop dl1 clock1 max_pages max_clips source
                    pages_processed a) -> x ∈ run_ids b) ->
  history (page_loop dl2 clock2 max_pages max_clips source pages_processed b)
    = history b /\
  stat_success (stats (page_loop dl2 clock2 max_pages max_clips source
                         pages_processed b)) = stat_success (stats b) /\
  stat_failed (stats (page_loop dl2 clock2 max_pages max_clips source
                        pages_processed b)) = stat_failed (stats b) /\
  handled (page_loop dl2 clock2 max_pages max_clips source pages_processed b)
    = handled (page_loop dl1 clock1 max_pages max_clips source
                 pages_processed a) /\
  stat_total_pages (stats (page_loop dl2 clock2 max_pages max_clips source
                             pages_processed b)) - stat_total_pages (stats b)
    = stat_total_pages (stats (page_loop dl1 clock1 max_pages max_clips source
                                 pages_processed a))
      - stat_total_pages (stats a).
Proof.
  induction source as [|resp source IH]; intros pp a b Hh Hnf Hsub;
    simpl in *; fold (handled a) in *; fold (handled b); rewrite <- Hh.
  - destruct (reached max_pages pp); [repeat split; auto; lia|].
    destruct (reached max_clips (handled a)); repeat split; auto; lia.
  - destruct (reached max_pages pp); [repeat split; auto; lia|].
    destruct (reached max_clips (handled a)); [repeat split; auto; lia|].
    destruct resp as [[|c clips] has_more|text];
      [repeat split; auto; lia| |simpl in Hnf; lia].
    set (a1 := process_page dl1 clock1 max_clips (c :: clips) (count_page a)) in *.
    set (b1 := process_page dl2 clock2 max_clips (c :: clips) (count_page b)) in *.
    destruct (process_page_mono dl1 clock1 max_clips (c :: clips) (count_page a))
      as (Hf1 & Hi1 & Hp1). fold a1 in Hf1, Hi1, Hp1.
    assert (stat_failed (stats a1) = stat_failed (stats a) /\
            (forall x, x ∈ run_ids a1 -> x ∈ run_ids b)) as [Hnf1 Hsub1].
    { destruct has_more; [|split; [exact Hnf|exact Hsub]].
      destruct (page_loop_mono dl1 clock1 max_pages max_clips source (pp + 1) a1)
        as (Hf2 & Hi2).
      split; [simpl in Hf1; lia|]. intros x Hx. apply Hsub, Hi2, Hx. }
    destruct (process_page_replay (c :: clips) (count_page a) (count_page b))
      as (H1 & H2 & H3 & H4 & H5);
      [exact Hh | exact Hnf1 | exact Hsub1 |]. fold a1 b1 in H1, H2, H3, H4, H5.
    destruct (process_page_mono dl2 clock2 max_clips (c :: clips) (count_page b))
      as (_ & _ & Hp2). fold b1 in Hp2.
    destruct has_more.
    + destruct (IH (pp + 1) a1 b1) as (K1 & K2 & K3 & K4 & K5).
      * symmetry. exact H4.
      * lia.
      * intros x Hx. unfold run_ids. rewrite H1. apply Hsub, Hx.
      * simpl in *. repeat split; try congruence; lia.
    + simpl in *. repeat split; auto; lia.
Qed.

Lemma page_loop_size source : forall pages_processed a,
  max_pages = None -> max_clips = None ->
  stat_failed (stats (page_loop dl1 clock1 max_pages max_clips source
                        pages_processed a)) = stat_failed (stats a) ->
  handled (page_loop dl1 clock1 max_pages max_clips source pages_processed a)
    = handled a + source_size source.
Proof.
  intros pp a -> ->. revert pp a.
  induction source as [|resp source IH]; intros pp a Hnf; simpl in *; [lia|].
  destruct resp as [[|c clips] has_more|text]; [lia| |simpl in Hnf; lia].
  set (a1 := process_page dl1 clock1 None (c :: clips) (count_page a)) in *.
  pose proof (process_page_size dl1 clock1 None (c :: clips) (count_page a)
                eq_refl) as Hsz. fold a1 in Hsz.
  destruct (process_page_mono dl1 clock1 None (c :: clips) (count_page a))
    as (Hf1 & _). fold a1 in Hf1.
  change (handled (count_page a)) with (handled a) in Hsz.
  change (stat_failed (stats (count_page a))) with (stat_failed (stats a))
    in Hsz, Hf1.
  destruct has_more.
  - destruct (page_loop_mono dl1 clock1 None None source (pp + 1) a1) as (Hf2 & _).
    rewrite IH by lia. simpl length in *. lia.
  - simpl length in *. lia.
Qed.
End Replay.

Lemma batch_download_paginated_eq dl clock account source mp mc m :
  batch_download_paginated dl clock account source mp mc m
  = let r := page_loop dl clock mp mc source 0
               {| history := fst (get_history account m);
                  stats := mkStats 0 0 0 0; events := [] |} in
    (stats r, events r,
     {| histories := <[account := history r]> (histories m) |}).
Proof.
  unfold batch_download_paginated, get_history.
  destruct (histories m !! account); simpl; [reflexivity|].
  rewrite insert_insert_eq. reflexivity.
Qed.

Lemma get_history_after_run account h m :
  get_history account {| histories := <[account := h]> (histories m) |}
  = (h, {| histories := <[account := h]> (histories m) |}).
Proof.
  unfold get_history. simpl. rewrite lookup_insert_eq. reflexivity.
Qed.



(** ** Python floats *)

Lemma pow2_pos e : 0 < 2 ^ Z.max 0 e.
Proof. apply Z.pow_pos_nonneg; lia. Qed.

Lemma pow2_split a b : 0 <= a -> 0 <= b -> 2 ^ (a + b) = 2 ^ a * 2 ^ b.
Proof. intros. apply Z.pow_add_r; assumption. Qed.

(** [mag n d] brackets the quotient between two consecutive powers of 2. *)
Lemma mag_spec n d :
  0 < n -> 0 < d ->
  d * 2 ^ Z.max 0 (PyFloat.mag n d) <= n * 2 ^ Z.max 0 (- PyFloat.mag n d) /\
  n * 2 ^ Z.max 0 (- PyFloat.mag n d) < 2 * (d * 2 ^ Z.max 0 (PyFloat.mag n d)).
Proof.
  intros Hn Hd. unfold PyFloat.mag.
  destruct (Z.log2_spec n Hn) as [Hn1 Hn2].
  destruct (Z.log2_spec d Hd) as [Hd1 Hd2].
  pose proof (Z.log2_nonneg n) as Ha. pose proof (Z.log2_nonneg d) as Hb.
  set (a := Z.log2 n) in *. set (b := Z.log2 d) in *.
  rewrite <- Z.add_1_r in Hn2, Hd2.
  rewrite pow2_split in Hn2, Hd2 by lia. change (2 ^ 1) with 2 in *.
  destruct (Z.ltb_spec (n * 2 ^ Z.max 0 (- (a - b))) (d * 2 ^ Z.max 0 (a - b)))
    as [Hlt|Hge].
  - destruct (Z.le_gt_cases 1 (a - b)) as [Hl|Hl].
    + replace (Z.max 0 (a - b)) with (a - b) in Hlt by lia.
      replace (Z.max 0 (- (a - b))) with 0 in Hlt by lia.
      replace (Z.max 0 (a - b - 1)) with (a - b - 1) by lia.
      replace (Z.max 0 (- (a - b - 1))) with 0 by lia.
      change (2 ^ 0) with 1 in *.
      assert (2 ^ (a - b) = 2 * 2 ^ (a - b - 1)) as E.
      { replace (a - b) with (1 + (a - b - 1)) at 1 by lia.
        rewrite pow2_split by lia. reflexivity. }
      assert (2 ^ a = 2 ^ b * 2 ^ (a - b)) as E2.
      { replace a with (b + (a - b)) at 1 by lia. apply pow2_split; lia. }
      assert (0 < 2 ^ (a - b - 1)) by (apply Z.pow_pos_nonneg; lia).
      split; nia.
    + replace (Z.max 0 (a - b)) with 0 in Hlt by lia.
      replace (Z.max 0 (- (a - b))) with (b - a) in Hlt by lia.
      replace (Z.max 0 (a - b - 1)) with 0 by lia.
      replace (Z.max 0 (- (a - b - 1))) with (1 + (b - a)) by lia.
      rewrite pow2_split by lia. change (2 ^ 1) with 2. change (2 ^ 0) with 1 in *.
      assert (2 ^ b = 2 ^ a * 2 ^ (b - a)) as E2.
      { replace b with (a + (b - a)) at 1 by lia. apply pow2_split; lia. }
      assert (0 < 2 ^ (b - a)) by (apply Z.pow_pos_nonneg; lia).
      split; nia.
  - split; [exact Hge|].
    destruct (Z.le_gt_cases 0 (a - b)) as [Hl|Hl].
    + replace (Z.max 0 (a - b)) with (a - b) by lia.
      replace (Z.max 0 (- (a - b))) with 0 by lia.
      change (2 ^ 0) with 1.
      assert (2 ^ a = 2 ^ b * 2 ^ (a - b)) as E2.
      { replace a with (b + (a - b)) at 1 by lia. apply pow2_split; lia. }
      assert (0 < 2 ^ (a - b)) by (apply Z.pow_pos_nonneg; lia).
      nia.
    + replace (Z.max 0 (a - b)) with 0 by lia.
      replace (Z.max 0 (- (a - b))) with (b - a) by lia.
      change (2 ^ 0) with 1.
      assert (2 ^ b = 2 ^ a * 2 ^ (b - a)) as E2.
      { replace b with (a + (b - a)) at 1 by lia. apply pow2_split; lia. }
      assert (0 < 2 ^ (b - a)) by (apply Z.pow_pos_nonneg; lia).
      nia.
Qed.

Lemma round_half_even_error num den :
  0 < den -> 0 <= num ->
  let q := num / den in
  let r := num mod den in
  let m := if 2 * r <? den then q
           else if den <? 2 * r then q + 1
           else if Z.even q then q else q + 1 in
  Z.abs (2 * (m * den) - 2 * num) <= den /\ q <= m <= q + 1 /\
  (r = 0 -> m = q).
Proof.
  intros Hden Hnum q r m.
  pose proof (Z.div_mod num den ltac:(lia)) as E.
  pose proof (Z.mod_pos_bound num den Hden) as Hr.
  fold q r in E, Hr. subst m.
  destruct (Z.ltb_spec (2 * r) den); [split; [nia|split; [lia|reflexivity]]|].
  destruct (Z.ltb_spec den (2 * r)); [split; [nia|split; [lia|intros; lia]]|].
  destruct (Z.even q); (split; [nia|split; [lia|intros; lia]]).
Qed.

(** In the normal range [round_pos] keeps 53 significant bits and is off by
    at most half a unit in the last place. *)
Lemma round_pos_spec n d :
  0 < n -> 0 < d -> -1022 <= PyFloat.mag n d ->
  let e := PyFloat.mag n d - 52 in
  let num := n * 2 ^ Z.max 0 (- e) in
  let den := d * 2 ^ Z.max 0 e in
  PyFloat.fexp (PyFloat.round_pos n d) = e /\
  0 < den /\
  2 ^ 52 * den <= num < 2 ^ 53 * den /\
  Z.abs (2 * (PyFloat.fnum (PyFloat.round_pos n d) * den) - 2 * num) <= den /\
  2 ^ 52 <= PyFloat.fnum (PyFloat.round_pos n d) <= 2 ^ 53 /\
  (num mod den = 0 -> PyFloat.fnum (PyFloat.round_pos n d) = num / den).
Proof.
  intros Hn Hd Hl e num den.
  destruct (mag_spec n d Hn Hd) as [Hlo Hhi].
  set (l := PyFloat.mag n d) in *.
  assert (0 < den) as Hden
    by (subst den; pose proof (pow2_pos e); nia).
  assert (2 ^ 52 * den <= num < 2 ^ 53 * den) as Hnorm.
  { subst num den e. change (2 ^ 53) with (2 * 2 ^ 52).
    destruct (Z.le_gt_cases 52 l) as [H52|H52].
    - replace (Z.max 0 (- (l - 52))) with 0 by lia.
      replace (Z.max 0 (l - 52)) with (l - 52) by lia.
      replace (Z.max 0 l) with (52 + (l - 52)) in Hlo, Hhi by lia.
      replace (Z.max 0 (- l)) with 0 in Hlo, Hhi by lia.
      rewrite pow2_split in Hlo, Hhi by lia.
      change (2 ^ 0) with 1 in *. lia.
    - replace (Z.max 0 (l - 52)) with 0 by lia.
      replace (Z.max 0 (- (l - 52))) with (52 - l) by lia.
      change (2 ^ 0) with 1.
      destruct (Z.le_gt_cases 0 l) as [H0|H0].
      + replace (Z.max 0 l) with l in Hlo, Hhi by lia.
        replace (Z.max 0 (- l)) with 0 in Hlo, Hhi by lia.
        change (2 ^ 0) with 1 in *.
        assert (2 ^ 52 = 2 ^ l * 2 ^ (52 - l)) as E.
        { replace 52 with (l + (52 - l)) at 1 by lia. apply pow2_split; lia. }
        assert (0 < 2 ^ (52 - l)) by (apply Z.pow_pos_nonneg; lia).
        rewrite E. nia.
      + replace (Z.max 0 l) with 0 in Hlo, Hhi by lia.
        replace (Z.max 0 (- l)) with (- l) in Hlo, Hhi by lia.
        change (2 ^ 0) with 1 in *.
        replace (52 - l) with (52 + - l) by lia.
        rewrite pow2_split by lia.
        set (T := 2 ^ 52). assert (0 < T) by (subst T; lia). nia. }
  assert (PyFloat.round_pos n d
          = PyFloat.mk
              (let q := num / den in
               let r := num mod den in
               if 2 * r <? den then q
               else if den <? 2 * r then q + 1
               else if Z.even q then q else q + 1) e) as ->.
  { unfold PyFloat.round_pos. fold l.
    replace (Z.max (l - 52) (-1074)) with e by (subst e; lia). reflexivity. }
  simpl PyFloat.fexp. simpl PyFloat.fnum.
  destruct (round_half_even_error num den Hden ltac:(nia)) as (Herr & Hm & Hex).
  split; [reflexivity|]. split; [exact Hden|]. split; [exact Hnorm|].
  split; [exact Herr|]. split; [|exact Hex].
  assert (2 ^ 52 <= num / den < 2 ^ 53) as Hq.
  { split; [apply Z.div_le_lower_bound; lia | apply Z.div_lt_upper_bound; lia]. }
  change (2 ^ 53) with (2 ^ 52 + 2 ^ 52) in *. lia.
Qed.

Lemma is_finite_normal m e :
  0 <= m <= 2 ^ 53 -> e <= 900 -> PyFloat.is_finite (PyFloat.mk m e) = true.
Proof.
  intros Hm He. unfold PyFloat.is_finite. simpl PyFloat.fnum. simpl PyFloat.fexp.
  apply Z.ltb_lt. rewrite Z.abs_eq by lia.
  assert (2 ^ (e + 1074) <= 2 ^ 1974) as Hp
    by (apply Z.pow_le_mono_r; lia).
  assert (0 <= 2 ^ (e + 1074)) as Hp0 by (apply Z.pow_nonneg; lia).
  assert (2 ^ 53 * 2 ^ 1974 < 2 ^ (1024 + 1074)) as Hc.
  { rewrite <- Z.pow_add_r by lia. apply Z.pow_lt_mono_r; lia. }
  eapply Z.le_lt_trans; [|exact Hc].
  apply Z.mul_le_mono_nonneg; lia.
Qed.

(** The arithmetic core: two roundings to 53 bits keep [int(x * 100)]
    within one of the exact quotient. *)
Lemma percent_window k t m1 P1 m2 P2 :
  0 < k <= t -> t <= 2 ^ 45 ->
  0 < P1 -> 0 < P2 ->
  2 ^ 52 * t <= k * P1 ->
  Z.abs (2 * (m1 * t) - 2 * (k * P1)) <= t ->
  2 ^ 52 * P1 <= 100 * m1 * P2 ->
  Z.abs (2 * (m2 * P1) - 200 * m1 * P2) <= P1 ->
  100 * k / t - 1 <= m2 / P2 <= 100 * k / t /\
  ((100 * k) mod t <> 0 -> m2 / P2 = 100 * k / t).
Proof.
  intros Hk Ht HP1 HP2 Hn1 He1 Hn2 He2.
  set (T := 2 ^ 52) in *.
  assert (T = 4503599627370496) as HT by reflexivity.
  assert (2 ^ 45 = 35184372088832) as H45 by reflexivity. rewrite H45 in Ht.
  assert (k * P1 <= t * P1) as HkP by (apply Z.mul_le_mono_nonneg_r; lia).
  assert (T <= P1) as HP1T.
  { apply (Z.mul_le_mono_pos_l _ _ t); lia. }
  assert (m1 <= P1) as Hm1.
  { assert (t * (2 * m1) <= t * (2 * P1 + 1)) as H by lia.
    apply Z.mul_le_mono_pos_l in H; lia. }
  assert (T <= 100 * P2) as HP2T.
  { assert (m1 * P2 <= P1 * P2) as H by (apply Z.mul_le_mono_nonneg_r; lia).
    apply (Z.mul_le_mono_pos_l _ _ P1); lia. }
  assert (0 < P1 * P2) as HPP by (apply Z.mul_pos_pos; lia).
  assert (0 < P1 * t) as HPt by (apply Z.mul_pos_pos; lia).
  assert (100 * P2 * t + P1 * t < 2 * (P1 * P2)) as Hkey.
  { assert (P2 * (100 * t) < P2 * P1) by (apply Z.mul_lt_mono_pos_l; lia).
    assert (P1 * t < P1 * P2) by (apply Z.mul_lt_mono_pos_l; lia).
    lia. }
  assert (1 * (P1 * P2) <= t * (P1 * P2)) as HtPP
    by (apply Z.mul_le_mono_nonneg_r; lia).
  assert (0 <= m2) as Hm2.
  { destruct (Z.le_gt_cases 0 m2) as [|Hneg]; [assumption|exfalso].
    assert (m2 * P1 <= 0) by (apply Z.mul_nonpos_nonneg; lia).
    assert (1 * P1 <= T * P1) by (apply Z.mul_le_mono_nonneg_r; lia).
    lia. }
  set (p := m2 / P2). set (M := 100 * k / t).
  pose proof (Z.div_mod m2 P2 ltac:(lia)) as Ep.
  pose proof (Z.mod_pos_bound m2 P2 HP2) as Rp. fold p in Ep.
  pose proof (Z.div_mod (100 * k) t ltac:(lia)) as EM.
  pose proof (Z.mod_pos_bound (100 * k) t ltac:(lia)) as RM. fold M in EM.
  assert (Z.abs (2 * (m2 * P1 * t) - 200 * k * (P1 * P2))
          <= 100 * P2 * t + P1 * t) as Hnear.
  { assert (Z.abs ((2 * (m2 * P1) - 200 * m1 * P2) * t) <= P1 * t) as H1.
    { rewrite Z.abs_mul, (Z.abs_eq t) by lia.
      apply Z.mul_le_mono_nonneg_r; lia. }
    assert (Z.abs ((2 * (m1 * t) - 2 * (k * P1)) * (100 * P2)) <= t * (100 * P2))
      as H2.
    { rewrite Z.abs_mul, (Z.abs_eq (100 * P2)) by lia.
      apply Z.mul_le_mono_nonneg_r; lia. }
    lia. }
  assert (p * P2 <= m2 < (p + 1) * P2) as Hp by lia.
  assert (M * t <= 100 * k < (M + 1) * t) as HM by lia.
  assert (p <= M) as Hup.
  { destruct (Z.le_gt_cases p M) as [|Hgt]; [assumption|exfalso].
    assert ((M + 1) * P2 <= p * P2) as H0
      by (apply Z.mul_le_mono_nonneg_r; lia).
    assert ((100 * k + 1) * (P1 * P2) <= (M + 1) * t * (P1 * P2)) as H2
      by (apply Z.mul_le_mono_nonneg_r; lia).
    assert ((M + 1) * P2 * (P1 * t) <= m2 * (P1 * t)) as H3
      by (apply Z.mul_le_mono_nonneg_r; lia).
    lia. }
  assert (M - 1 <= p) as Hlow.
  { destruct (Z.le_gt_cases (M - 1) p) as [|Hgt]; [assumption|exfalso].
    assert ((p + 1) * P2 <= (M - 1) * P2) as H0
      by (apply Z.mul_le_mono_nonneg_r; lia).
    assert (m2 * (P1 * t) < (M - 1) * P2 * (P1 * t)) as H2
      by (apply Z.mul_lt_mono_pos_r; lia).
    assert ((M - 1) * t * (P1 * P2) <= (100 * k - t) * (P1 * P2)) as H3
      by (apply Z.mul_le_mono_nonneg_r; lia).
    lia. }
  split; [lia|]. intros Hnd.
  destruct (Z.le_gt_cases M p) as [|Hgt]; [lia|exfalso].
  assert ((p + 1) * P2 <= M * P2) as H0
    by (apply Z.mul_le_mono_nonneg_r; lia).
  assert (m2 * (P1 * t) < M * P2 * (P1 * t)) as H2
    by (apply Z.mul_lt_mono_pos_r; lia).
  assert (M * t * (P1 * P2) <= (100 * k - 1) * (P1 * P2)) as H3
    by (apply Z.mul_le_mono_nonneg_r; lia).
  lia.
Qed.

Lemma round_rat_pos n d :
  0 < n -> 0 < d -> PyFloat.round_rat n d = PyFloat.round_pos n d.
Proof.
  intros Hn Hd. unfold PyFloat.round_rat.
  destruct (Z.eqb_spec n 0); [lia|].
  rewrite !Z.abs_eq, !Z.sgn_pos by lia.
  destruct (PyFloat.round_pos n d). simpl. f_equal. lia.
Qed.

Lemma py_truediv_pos k t :
  0 < k -> 0 < t -> PyFloat.is_finite (PyFloat.round_pos k t) = true ->
  py_truediv k t = inr (PyFloat.round_pos k t).
Proof.
  intros Hk Ht Hfin. unfold py_truediv, PyFloat.checked.
  destruct (Z.eqb_spec t 0); [lia|].
  rewrite round_rat_pos, Hfin by assumption. reflexivity.
Qed.

Lemma hundred_as_float :
  PyFloat.of_int 100 = Some (PyFloat.mk (100 * 2 ^ 46) (-46)).
Proof. vm_compute. reflexivity. Qed.

Lemma mag_upper n d l :
  0 < n -> 0 < d -> 0 <= l -> n < d * 2 ^ l -> PyFloat.mag n d < l.
Proof.
  intros Hn Hd Hl Hlt. destruct (mag_spec n d Hn Hd) as [Hlo _].
  destruct (Z.lt_ge_cases (PyFloat.mag n d) l) as [|Hge]; [assumption|exfalso].
  replace (Z.max 0 (PyFloat.mag n d)) with (PyFloat.mag n d) in Hlo by lia.
  replace (Z.max 0 (- PyFloat.mag n d)) with 0 in Hlo by lia.
  change (2 ^ 0) with 1 in Hlo.
  assert (2 ^ l <= 2 ^ PyFloat.mag n d) by (apply Z.pow_le_mono_r; lia).
  nia.
Qed.

Lemma mag_lower n d l :
  0 < n -> 0 < d -> 0 <= l -> d <= n * 2 ^ l -> - l <= PyFloat.mag n d.
Proof.
  intros Hn Hd Hl Hle. destruct (mag_spec n d Hn Hd) as [_ Hhi].
  destruct (Z.le_gt_cases (- l) (PyFloat.mag n d)) as [|Hlt]; [assumption|exfalso].
  replace (Z.max 0 (PyFloat.mag n d)) with 0 in Hhi by lia.
  replace (Z.max 0 (- PyFloat.mag n d)) with (- PyFloat.mag n d) in Hhi by lia.
  change (2 ^ 0) with 1 in Hhi.
  assert (2 ^ (l + 1) <= 2 ^ (- PyFloat.mag n d))
    by (apply Z.pow_le_mono_r; lia).
  rewrite pow2_split in H by lia. change (2 ^ 1) with 2 in H.
  assert (0 < 2 ^ l) by (apply Z.pow_pos_nonneg; lia).
  nia.
Qed.

Lemma float_eta f : f = PyFloat.mk (PyFloat.fnum f) (PyFloat.fexp f).
Proof. destruct f. reflexivity. Qed.

Lemma py_int_of_product_100 q :
  0 < PyFloat.fnum q -> PyFloat.fexp q <= 0 ->
  py_int_of_product q 100
  = match PyFloat.checked
            (PyFloat.round_pos (PyFloat.fnum q * (100 * 2 ^ 46))
               (2 ^ 46 * 2 ^ (- PyFloat.fexp q))) with
    | Some r => inr (PyFloat.to_int r)
    | None => inl "cannot convert float infinity to integer"%string
    end.
Proof.
  intros Hm He. unfold py_int_of_product. rewrite hundred_as_float.
  unfold PyFloat.mul. cbn [PyFloat.fnum PyFloat.fexp].
  replace (Z.max 0 (PyFloat.fexp q + -46)) with 0 by lia.
  replace (Z.max 0 (- (PyFloat.fexp q + -46)))
    with (46 + - PyFloat.fexp q) by lia.
  rewrite pow2_split by lia.
  change (2 ^ 0) with 1. rewrite Z.mul_1_r.
  assert (0 < 2 ^ (- PyFloat.fexp q)) by (apply Z.pow_pos_nonneg; lia).
  rewrite round_rat_pos; [reflexivity| |]; lia.
Qed.

Lemma progress_percent_window k t :
  0 < k <= t -> t <= 2 ^ 45 ->
  exists p, progress_percent k t = inr p /\
    100 * k / t - 1 <= p <= 100 * k / t /\
    ((100 * k) mod t <> 0 -> p = 100 * k / t) /\
    (k = t -> p = 100).
Proof.
  intros Hk Ht.
  assert (2 ^ 45 = 35184372088832) as H45 by reflexivity.
  (* the quotient *)
  assert (- 46 <= PyFloat.mag k t) as Hl1lo.
  { apply (mag_lower k t 46); lia. }
  assert (PyFloat.mag k t < 1) as Hl1hi.
  { apply (mag_upper k t 1); lia. }
  destruct (round_pos_spec k t ltac:(lia) ltac:(lia) ltac:(lia))
    as (He1 & _ & Hn1 & Herr1 & Hm1 & Hex1).
  set (q := PyFloat.round_pos k t) in *.
  set (l1 := PyFloat.mag k t) in *.
  replace (Z.max 0 (- (l1 - 52))) with (52 - l1) in * by lia.
  replace (Z.max 0 (l1 - 52)) with 0 in * by lia.
  change (2 ^ 0) with 1 in *. rewrite !Z.mul_1_r in *.
  set (P1 := 2 ^ (52 - l1)) in *.
  assert (0 < P1) as HP1 by (apply Z.pow_pos_nonneg; lia).
  assert (P1 <= 2 ^ 98) as HP1hi by (apply Z.pow_le_mono_r; lia).
  set (m1 := PyFloat.fnum q) in *.
  assert (m1 <= P1) as Hm1P by nia.
  assert (py_truediv k t = inr q) as Hq.
  { apply py_truediv_pos; try lia. fold q. rewrite (float_eta q).
    apply is_finite_normal; [fold m1; lia | rewrite He1; lia]. }
  (* the product *)
  assert (exists p, py_int_of_product q 100 = inr p /\
            100 * k / t - 1 <= p <= 100 * k / t /\
            ((100 * k) mod t <> 0 -> p = 100 * k / t) /\
            (k = t -> p = 100)) as (p & Hprod & Hwin & Hnd & Hlast);
    [|exists p; split; [|tauto];
      unfold progress_percent; rewrite Hq, Hprod; f_equal;
      assert (100 * k / t <= 100) by (apply Z.div_le_upper_bound; lia); lia].
  rewrite py_int_of_product_100 by (fold m1; lia).
  fold m1. rewrite He1. replace (- (l1 - 52)) with (52 - l1) by lia. fold P1.
  set (C := 2 ^ 46). assert (C = 70368744177664) as HC by reflexivity.
  set (N := m1 * (100 * C)). set (D := C * P1).
  assert (0 < N) as HN by (subst N; apply Z.mul_pos_pos; lia).
  assert (0 < D) as HD by (subst D; apply Z.mul_pos_pos; lia).
  assert (PyFloat.mag N D < 7) as Hl2hi.
  { apply (mag_upper N D 7); lia. }
  assert (- 47 <= PyFloat.mag N D) as Hl2lo.
  { apply (mag_lower N D 47); lia. }
  destruct (round_pos_spec N D HN HD ltac:(lia))
    as (He2 & _ & Hn2 & Herr2 & Hm2 & Hex2).
  set (r := PyFloat.round_pos N D) in *.
  set (l2 := PyFloat.mag N D) in *.
  replace (Z.max 0 (- (l2 - 52))) with (52 - l2) in * by lia.
  replace (Z.max 0 (l2 - 52)) with 0 in * by lia.
  change (2 ^ 0) with 1 in *. rewrite !Z.mul_1_r in *.
  set (P2 := 2 ^ (52 - l2)) in *.
  assert (0 < P2) as HP2 by (apply Z.pow_pos_nonneg; lia).
  set (m2 := PyFloat.fnum r) in *.
  assert (PyFloat.checked r = Some r) as ->.
  { unfold PyFloat.checked. rewrite (float_eta r) at 1.
    rewrite is_finite_normal; [reflexivity | fold m2; lia | rewrite He2; lia]. }
  assert (PyFloat.to_int r = m2 / P2) as Hint.
  { unfold PyFloat.to_int. rewrite He2.
    destruct (Z.leb_spec 0 (l2 - 52)); [lia|].
    replace (- (l2 - 52)) with (52 - l2) by lia. fold P2 m2.
    apply Z.quot_div_nonneg; lia. }
  destruct (percent_window k t m1 P1 m2 P2) as [Hwin Hnd]; try assumption.
  { lia. }
  { subst N D. nia. }
  { subst N D.
    assert (Z.abs (C * (2 * (m2 * P1) - 200 * m1 * P2)) <= C * P1) as H
      by (replace (C * (2 * (m2 * P1) - 200 * m1 * P2))
            with (2 * (m2 * (C * P1)) - 2 * (m1 * (100 * C) * P2)) by ring;
          exact Herr2).
    rewrite Z.abs_mul, (Z.abs_eq C) in H by lia. nia. }
  exists (m2 / P2). split; [f_equal; exact Hint|]. split; [exact Hwin|].
  split; [exact Hnd|].
  intros ->.
  assert (m1 = P1) as Em1.
  { rewrite Hex1; [|rewrite Z.mul_comm; apply Z_mod_mult].
    rewrite Z.mul_comm. apply Z.div_mul. lia. }
  assert (m2 = 100 * P2) as Em2.
  { replace (N * P2) with ((100 * P2) * D) in Hex2 by (subst N D; rewrite Em1; ring).
    rewrite Hex2; [|apply Z_mod_mult]. apply Z.div_mul. lia. }
  rewrite Em2. apply Z.div_mul. lia.
Qed.

(** Dividing by 1, 2 or 4 is exact in binary64 below [2 ^ 53], so the
    ceiling of the float quotient is the ceiling of the fraction. *)
Lemma py_ceil_div_pow2 n j :
  0 < n < 2 ^ 53 -> 0 <= j <= 2 ->
  py_ceil_div n (2 ^ j) = inr ((n + 2 ^ j - 1) / 2 ^ j).
Proof.
  intros Hn Hj.
  assert (0 < 2 ^ j) as Hd by (apply Z.pow_pos_nonneg; lia).
  assert (2 ^ j <= 4) as Hd4
    by (change 4 with (2 ^ 2); apply Z.pow_le_mono_r; lia).
  assert (PyFloat.mag n (2 ^ j) < 53 - j) as Hhi.
  { apply (mag_upper n (2 ^ j) (53 - j)); try lia.
    rewrite <- pow2_split by lia. replace (j + (53 - j)) with 53 by lia. lia. }
  assert (- j <= PyFloat.mag n (2 ^ j)) as Hlo.
  { apply (mag_lower n (2 ^ j) j); try lia.
    assert (1 * 2 ^ j <= n * 2 ^ j) by (apply Z.mul_le_mono_nonneg_r; lia). lia. }
  destruct (round_pos_spec n (2 ^ j) ltac:(lia) Hd ltac:(lia))
    as (He & _ & _ & _ & Hm & Hex).
  set (q := PyFloat.round_pos n (2 ^ j)) in *.
  set (l := PyFloat.mag n (2 ^ j)) in *.
  replace (Z.max 0 (- (l - 52))) with (52 - l) in Hex by lia.
  replace (Z.max 0 (l - 52)) with 0 in Hex by lia.
  change (2 ^ 0) with 1 in Hex. rewrite Z.mul_1_r in Hex.
  set (A := 2 ^ (52 - l - j)).
  assert (0 < A) as HA by (apply Z.pow_pos_nonneg; lia).
  assert (2 ^ (52 - l) = A * 2 ^ j) as Epow.
  { replace (52 - l) with ((52 - l - j) + j) by lia. apply pow2_split; lia. }
  rewrite Epow in Hex.
  replace (n * (A * 2 ^ j)) with ((n * A) * 2 ^ j) in Hex by ring.
  rewrite Z_mod_mult, Z.div_mul in Hex by lia. specialize (Hex eq_refl).
  unfold py_ceil_div.
  assert (py_truediv n (2 ^ j) = inr q) as ->.
  { apply py_truediv_pos; try lia. fold q. rewrite (float_eta q).
    apply is_finite_normal; [lia | rewrite He; lia]. }
  f_equal. unfold PyFloat.ceil. rewrite He, Hex.
  destruct (Z.leb_spec 0 (l - 52)) as [H0|H0].
  - assert (l = 52) by lia. assert (j = 0) by lia. subst l A.
    replace (52 - PyFloat.mag n (2 ^ j) - j) with 0 by lia.
    replace (PyFloat.mag n (2 ^ j) - 52) with 0 by lia. subst j.
    change (2 ^ 0) with 1. rewrite Z.div_1_r. lia.
  - replace (- (l - 52)) with (52 - l) by lia. rewrite Epow.
    replace (- (n * A)) with ((- n) * A) by ring.
    rewrite (Z.mul_comm (- n) A).
    rewrite Z.div_mul_cancel_l by lia.
    assert (j = 0 \/ j = 1 \/ j = 2) as Hcases by lia.
    destruct Hcases as [E|[E|E]]; rewrite E;
      [change (2 ^ 0) with 1 | change (2 ^ 1) with 2 | change (2 ^ 2) with 4].
    all: Z.div_mod_to_equations; lia.
Qed.

Lemma concat_slices {A} (l : list A) (sz n : nat) :
  concat (List.map (fun i => take sz (drop (i * sz) l)) (seq 0 n))
  = take (n * sz) l.
Proof.
  induction n as [|n IH]; [reflexivity|].
  rewrite seq_S, List.map_app, concat_app, IH. simpl.
  rewrite app_nil_r, take_take_drop. f_equal. lia.
Qed.

Lemma session_prompts_nat prompts size i :
  0 <= size ->
  session_prompts prompts size i
  = take (Z.to_nat size) (drop (i * Z.to_nat size) prompts).
Proof.
  intros Hs. unfold session_prompts.
  rewrite Z2Nat.inj_mul, Nat2Z.id by lia. reflexivity.
Qed.

Lemma session_count_covers total size :
  0 <= total -> 1 <= size ->
  0 <= session_count_of total size /\
  total <= session_count_of total size * size /\
  (session_count_of total size - 1) * size < total.
Proof.
  intros Ht Hs. unfold session_count_of.
  pose proof (Z.div_mod (total + size - 1) size ltac:(lia)) as E.
  pose proof (Z.mod_pos_bound (total + size - 1) size ltac:(lia)) as R.
  assert (0 <= (total + size - 1) / size) by (apply Z.div_pos; lia).
  set (c := (total + size - 1) / size) in *.
  replace (c * size) with (size * c) by ring.
  replace ((c - 1) * size) with (size * c - size) by ring. lia.
Qed.

Lemma session_slices_concat prompts songs_per_session :
  concat (session_slices prompts songs_per_session) = prompts.
Proof.
  unfold session_slices.
  set (size := Z.max 1 songs_per_session).
  set (total := Z.of_nat (length prompts)).
  destruct (session_count_covers total size ltac:(lia) ltac:(lia))
    as (Hc & Hcover & _).
  rewrite (map_ext _ (fun i => take (Z.to_nat size)
                                 (drop (i * Z.to_nat size) prompts)))
    by (intros i; apply session_prompts_nat; lia).
  rewrite concat_slices. apply take_ge.
  rewrite <- Z2Nat.inj_mul by lia. lia.
Qed.

Lemma session_slices_count prompts songs_per_session :
  Z.of_nat (length (session_slices prompts songs_per_session))
  = session_count_of (Z.of_nat (length prompts)) (Z.max 1 songs_per_session).
Proof.
  unfold session_slices. rewrite length_map, length_seq.
  destruct (session_count_covers (Z.of_nat (length prompts))
              (Z.max 1 songs_per_session) ltac:(lia) ltac:(lia)) as (Hc & _).
  lia.
Qed.

Lemma session_slices_sizes prompts songs_per_session i s :
  session_slices prompts songs_per_session !! i = Some s ->
  s = session_prompts prompts (Z.max 1 songs_per_session) i /\
  Z.of_nat (length s)
  = Z.min (Z.max 1 songs_per_session)
      (Z.of_nat (length prompts) - Z.of_nat i * Z.max 1 songs_per_session) /\
  1 <= Z.of_nat (length s).
Proof.
  unfold session_slices. intros Hi.
  set (size := Z.max 1 songs_per_session) in *.
  set (total := Z.of_nat (length prompts)) in *.
  destruct (session_count_covers total size ltac:(lia) ltac:(lia))
    as (Hc & _ & Hlast).
  apply list_lookup_fmap_Some in Hi as (j & -> & Hj).
  apply lookup_seq in Hj as [-> Hlt]. simpl.
  split; [reflexivity|].
  rewrite session_prompts_nat by lia.
  rewrite length_take, length_drop.
  assert (Z.of_nat i * size < total).
  { assert (Z.of_nat i <= session_count_of total size - 1) by lia.
    assert (Z.of_nat i * size <= (session_count_of total size - 1) * size)
      by (apply Z.mul_le_mono_nonneg_r; lia).
    lia. }
  assert (Z.of_nat (i * Z.to_nat size) = Z.of_nat i * size) as E
    by (rewrite Nat2Z.inj_mul, Z2Nat.id; lia).
  subst total. lia.
Qed.

Lemma calculate_session_count_tiers n :
  _calculate_session_count n
  = if n <? 11 then 1 else if n <? 21 then 2 else if n <? 31 then 3 else 4.
Proof.
  unfold _calculate_session_count.
  destruct (Z.ltb_spec 30 n), (Z.ltb_spec 20 n), (Z.ltb_spec 10 n),
    (Z.ltb_spec n 11), (Z.ltb_spec n 21), (Z.ltb_spec n 31); lia.
Qed.

(** The session size the panel computes makes the engine run exactly the
    tiered number of sessions. *)
Lemma tiered_size_gives_tiered_count n :
  1 <= n ->
  session_count_of n
    (Z.max 1 ((n + _calculate_session_count n - 1) / _calculate_session_count n))
  = _calculate_session_count n.
Proof.
  intros Hn. unfold _calculate_session_count, session_count_of.
  destruct (Z.ltb_spec 30 n) as [H30|H30];
    [|destruct (Z.ltb_spec 20 n) as [H20|H20];
      [|destruct (Z.ltb_spec 10 n) as [H10|H10]]].
  - set (s := (n + 4 - 1) / 4).
    assert (4 * s <= n + 3 < 4 * s + 4) by (subst s; Z.div_mod_to_equations; lia).
    replace (Z.max 1 s) with s by lia.
    symmetry. apply (Z.div_unique _ _ _ (n - 3 * s - 1)); lia.
  - set (s := (n + 3 - 1) / 3).
    assert (3 * s <= n + 2 < 3 * s + 3) by (subst s; Z.div_mod_to_equations; lia).
    replace (Z.max 1 s) with s by lia.
    symmetry. apply (Z.div_unique _ _ _ (n - 2 * s - 1)); lia.
  - set (s := (n + 2 - 1) / 2).
    assert (2 * s <= n + 1 < 2 * s + 2) by (subst s; Z.div_mod_to_equations; lia).
    replace (Z.max 1 s) with s by lia.
    symmetry. apply (Z.div_unique _ _ _ (n - s - 1)); lia.
  - replace (n + 1 - 1) with n by lia. rewrite Z.div_1_r.
    replace (Z.max 1 n) with n by lia.
    symmetry. apply (Z.div_unique _ _ _ (n - 1)); lia.
Qed.

Lemma py_ceil_div_by_three n :
  21 <= n <= 30 -> py_ceil_div n 3 = inr ((n + 3 - 1) / 3).
Proof.
  intros Hn.
  assert (n = 21 \/ n = 22 \/ n = 23 \/ n = 24 \/ n = 25 \/ n = 26 \/ n = 27
          \/ n = 28 \/ n = 29 \/ n = 30) as Hc by lia.
  repeat destruct Hc as [->|Hc]; try subst n; vm_compute; reflexivity.
Qed.

Lemma queue_songs_per_session_ceil queue_prompts :
  queue_prompts <> [] -> Z.of_nat (length queue_prompts) < 2 ^ 53 ->
  queue_songs_per_session queue_prompts
  = inr ((Z.of_nat (length queue_prompts)
          + _calculate_session_count (Z.of_nat (length queue_prompts)) - 1)
         / _calculate_session_count (Z.of_nat (length queue_prompts))).
Proof.
  intros Hne Hlt. unfold queue_songs_per_session.
  set (n := Z.of_nat (length queue_prompts)) in *.
  assert (1 <= n) as Hn by (subst n; destruct queue_prompts; [congruence|simpl; lia]).
  unfold _calculate_session_count.
  destruct (Z.ltb_spec 30 n) as [H30|H30];
    [|destruct (Z.ltb_spec 20 n) as [H20|H20];
      [|destruct (Z.ltb_spec 10 n) as [H10|H10]]].
  - apply (py_ceil_div_pow2 n 2); lia.
  - apply py_ceil_div_by_three; lia.
  - apply (py_ceil_div_pow2 n 1); lia.
  - apply (py_ceil_div_pow2 n 0); lia.
Qed.

(** ** Sessions and progress reports of a batch *)

Lemma progress_calls_app tr1 tr2 :
  progress_calls (tr1 ++ tr2) = progress_calls tr1 ++ progress_calls tr2.
Proof. unfold progress_calls. apply flat_map_app. Qed.

Lemma expected_calls_app total c l1 l2 :
  expected_calls total c (l1 ++ l2)
  = expected_calls total c l1
    ++ expected_calls total (c + Z.of_nat (length l1)) l2.
Proof.
  revert c. induction l1 as [|p l1 IH]; intros c; simpl.
  - f_equal. lia.
  - rewrite IH. do 3 f_equal. lia.
Qed.

Lemma record_history_keeps acc prof prompt idx sid st err t w :
  driver (_record_history_entry acc prof prompt idx sid st err t w) = driver w /\
  trace (_record_history_entry acc prof prompt idx sid st err t w) = trace w.
Proof.
  unfold _record_history_entry. destruct (history_manager w); split; reflexivity.
Qed.

Section SessionRun.
Variables (auto_submit : bool) (session_index session_count : Z).
Variables (completed_before total_songs : Z).
Variables (account_name : option string) (profile_name : string).
Variable env : SessionEnv.
Variable len : Z.
Hypothesis no_crash : crash_at env = None.
Hypothesis total_small : total_songs <= 2 ^ 45.
Hypothesis completed_nonneg : 0 <= completed_before.

Lemma run_tab_reports prompt (i : nat) w :
  completed_before + Z.of_nat i + 1 <= total_songs ->
  exists result w',
    run_tab auto_submit true session_index session_count completed_before
      total_songs account_name profile_name env len prompt i w
    = (inr result, w') /\
    res_title result = SunoPrompt.title prompt /\
    driver w' = driver w /\
    progress_calls (trace w')
    = progress_calls (trace w)
      ++ [(percent_of (completed_before + Z.of_nat i + 1) total_songs,
           SunoPrompt.title prompt)].
Proof.
  intros Hle. unfold run_tab. rewrite no_crash.
  destruct (progress_percent_window (completed_before + Z.of_nat i + 1)
              total_songs ltac:(lia) total_small) as (p & Hp & _).
  unfold percent_of. rewrite Hp.
  eexists _, _. split; [reflexivity|]. split; [reflexivity|].
  unfold call_progress, emit. simpl.
  destruct (record_history_keeps account_name profile_name prompt
              (completed_before + Z.of_nat i + 1)
              (song_id (song_outcome auto_submit (tabs env i)))
              (status_label (song_outcome auto_submit (tabs env i)))
              (error_message (song_outcome auto_submit (tabs env i)))
              (now (tabs env i)) w) as [Hd Ht].
  split; [exact Hd|]. rewrite Ht, progress_calls_app. reflexivity.
Qed.

Lemma run_tabs_reports prompts : forall (i : nat) results w,
  completed_before + Z.of_nat i + Z.of_nat (length prompts) <= total_songs ->
  exists rs w',
    run_tabs auto_submit true session_index session_count completed_before
      total_songs account_name profile_name env len prompts i results w
    = (inr (results ++ rs), w') /\
    List.map res_title rs = List.map SunoPrompt.title prompts /\
    driver w' = driver w /\
    progress_calls (trace w')
    = progress_calls (trace w)
      ++ expected_calls total_songs (completed_before + Z.of_nat i) prompts.
Proof.
  induction prompts as [|prompt rest IH]; intros i results w Hle.
  - exists [], w. simpl. rewrite !app_nil_r. auto.
  - simpl length in Hle.
    destruct (run_tab_reports prompt i w ltac:(lia))
      as (r & w1 & Hrun & Ht & Hd & Hc).
    destruct (IH (S i) (results ++ [r]) w1 ltac:(lia))
      as (rs & w2 & Hrun2 & Ht2 & Hd2 & Hc2).
    exists (r :: rs), w2. simpl. rewrite Hrun, Hrun2.
    rewrite <- app_assoc. simpl.
    split; [reflexivity|]. split; [now rewrite Ht, Ht2|].
    split; [congruence|].
    rewrite Hc2, Hc, <- app_assoc. simpl.
    replace (completed_before + Z.of_nat (S i))
      with (completed_before + Z.of_nat i + 1) by lia.
    reflexivity.
Qed.
End SessionRun.

Section BatchRun.
Variable env : BatchEnv.
Variables (prompts : list SunoPrompt.t) (songs_per_session : Z).
Variables (auto_submit : bool).
Variables (account_name : option string) (profile_name : string).
Hypothesis no_crash : forall s, crash_at (sessions env s) = None.
Hypothesis total_small : Z.of_nat (length prompts) <= 2 ^ 45.

Lemma run_sessions_reports indices : forall results completed w,
  driver w = true ->
  0 <= completed ->
  completed
  + Z.of_nat (length (concat (List.map
       (session_prompts prompts (Z.max 1 songs_per_session)) indices)))
    <= Z.of_nat (length prompts) ->
  exists rs w',
    run_sessions env prompts songs_per_session auto_submit true account_name
      profile_name indices results completed w = (results ++ rs, w') /\
    List.map res_title rs
    = List.map SunoPrompt.title
        (concat (List.map (session_prompts prompts (Z.max 1 songs_per_session))
                   indices)) /\
    driver w' = true /\
    progress_calls (trace w')
    = progress_calls (trace w)
      ++ expected_calls (Z.of_nat (length prompts)) completed
           (concat (List.map
              (session_prompts prompts (Z.max 1 songs_per_session)) indices)).
Proof.
  induction indices as [|s rest IH]; intros results completed w Hd Hc Hle.
  - exists [], w. simpl. rewrite !app_nil_r. auto.
  - simpl in Hle. rewrite length_app in Hle.
    set (slice := session_prompts prompts (Z.max 1 songs_per_session) s) in *.
    destruct (run_tabs_reports auto_submit (Z.of_nat s)
                (session_count_of (Z.of_nat (length prompts))
                   (Z.max 1 songs_per_session))
                completed (Z.of_nat (length prompts)) account_name profile_name
                (sessions env s) (Z.of_nat (length slice)) (no_crash s)
                total_small Hc slice 0%nat [] w ltac:(lia))
      as (rs1 & w1 & Hrun & Ht & Hd1 & Hc1).
    destruct (IH (results ++ rs1) (completed + Z.of_nat (length slice)) w1
                ltac:(congruence) ltac:(lia) ltac:(lia))
      as (rs2 & w2 & Hrun2 & Ht2 & Hd2 & Hc2).
    exists (rs1 ++ rs2), w2. simpl. fold slice.
    unfold _run_session. rewrite Hd. simpl. rewrite Hrun. simpl.
    rewrite Hrun2, <- app_assoc.
    split; [reflexivity|].
    split; [rewrite !List.map_app, Ht, Ht2; reflexivity|].
    split; [exact Hd2|].
    rewrite Hc2, Hc1, expected_calls_app, <- app_assoc.
    replace (completed + Z.of_nat 0) with completed by lia. reflexivity.
Qed.

Lemma create_songs_batch_reports w :
  prompts <> [] -> driver_failure env = None ->
  exists results w',
    create_songs_batch env prompts songs_per_session auto_submit true
      account_name profile_name w = (inr results, w') /\
    List.map res_title results = List.map SunoPrompt.title prompts /\
    driver w' = false /\
    progress_calls (trace w')
    = progress_calls (trace w)
      ++ expected_calls (Z.of_nat (length prompts)) 0 prompts
      ++ [(100, "Batch finished")].
Proof.
  intros Hne Hstart.
  assert (create_songs_batch env prompts songs_per_session auto_submit true
            account_name profile_name w
          = match _initialize_driver (driver_failure env) w with
            | (inl text, w1) => (inl text, _teardown_driver w1)
            | (inr _, w1) =>
                let '(results, w2) :=
                  run_sessions env prompts songs_per_session auto_submit true
                    account_name profile_name
                    (seq 0 (Z.to_nat (session_count_of
                                        (Z.of_nat (length prompts))
                                        (Z.max 1 songs_per_session))))
                    [] 0 w1 in
                (inr results,
                 emit (Progress "✅ Hoàn thành!" 100 None "complete"
                         "Batch finished") (_teardown_driver w2))
            end) as ->.
  { unfold create_songs_batch. clear -Hne.
    destruct prompts; [congruence|reflexivity]. }
  unfold _initialize_driver. rewrite Hstart.
  set (w1 := {| driver := true;
                history_manager :=
                  history_manager (if driver w then emit DriverQuit w else w);
                trace := trace (if driver w then emit DriverQuit w else w)
                         ++ [DriverStarted] |}).
  assert (progress_calls (trace w1) = progress_calls (trace w)) as Hw1.
  { subst w1. simpl. destruct (driver w); simpl;
      rewrite !progress_calls_app; simpl; rewrite ?app_nil_r; reflexivity. }
  pose proof (session_slices_concat prompts songs_per_session) as Hcat.
  unfold session_slices in Hcat.
  destruct (run_sessions_reports
              (seq 0 (Z.to_nat (session_count_of (Z.of_nat (length prompts))
                                  (Z.max 1 songs_per_session))))
              [] 0 w1 eq_refl ltac:(lia))
    as (rs & w2 & Hrun & Ht & Hd & Hc).
  { rewrite Hcat. lia. }
  simpl in Hrun. rewrite Hrun. rewrite Hcat in Ht, Hc.
  eexists _, _. split; [reflexivity|]. split; [exact Ht|].
  unfold _teardown_driver. rewrite Hd. simpl. split; [reflexivity|].
  rewrite !progress_calls_app, Hc, Hw1. simpl.
  rewrite app_nil_r, <- app_assoc. reflexivity.
Qed.
End BatchRun.

Lemma expected_calls_titles total c prompts :
  List.map snd (expected_calls total c prompts)
  = List.map SunoPrompt.title prompts.
Proof.
  revert c. induction prompts as [|p rest IH]; intros c; simpl;
    [reflexivity|]. rewrite IH. reflexivity.
Qed.

Lemma percent_of_spec completed total :
  0 < completed <= total -> total <= 2 ^ 45 ->
  progress_percent completed total = inr (percent_of completed total) /\
  100 * completed / total - 1 <= percent_of completed total
    <= 100 * completed / total /\
  ((100 * completed) mod total <> 0 ->
     percent_of completed total = 100 * completed / total) /\
  (completed = total -> percent_of completed total = 100).
Proof.
  intros Hc Ht.
  destruct (progress_percent_window completed total Hc Ht) as (p & Hp & H).
  unfold percent_of. rewrite Hp. split; [reflexivity|exact H].
Qed.







(** Twenty-nine of a hundred: [29 / 100 * 100] is just below 29 in double
    precision, so the report says 28. *)
Example percent_29_of_100 : progress_percent 29 100 = inr 28.
Proof. vm_compute. reflexivity. Qed.
